(** * Gutenberg book search: text analysis and record store

    A shallow embedding of the core of [gutenberg_demo_V16.py]:

    - [remove_html_tags], the regular-expression tag stripper;
    - [BookSearchApp.get_top_ten_words], the word-frequency ranking;
    - [BookManager], the SQLite-backed store of (title, word, frequency)
      rows, with its five operations.

    A Python [str] is represented by its UTF-8 encoding, a [string] of
    8-bit characters.  Every character the program singles out ([<], [>],
    the newline, the 32 characters of [string.punctuation], the letters
    SQLite's [LOWER] folds) is an ASCII character, and an ASCII byte never
    occurs inside a multi-byte UTF-8 sequence, so the byte-level scans below
    act on the encoding exactly as the program acts on the code points. *)

From Stdlib Require Import List String Ascii Bool Arith ZArith Lia Sorted
  Permutation.
Import ListNotations.

Open Scope string_scope.
Open Scope Z_scope.

(** ** Characters and strings *)

Definition newline : ascii := ascii_of_nat 10.

Definition code (c : ascii) : nat := nat_of_ascii c.

(** Membership of a string in a collection, as Python's [in] on a set. *)
Definition mem (w : string) (l : list string) : bool :=
  existsb (String.eqb w) l.

(** Does the character [c] occur in [s]? *)
Fixpoint contains (c : ascii) (s : string) : bool :=
  match s with
  | EmptyString => false
  | String d r => Ascii.eqb d c || contains c r
  end.

(** [string.punctuation]: the 32 ASCII punctuation characters, by code:
    33..47, 58..64, 91..96 and 123..126. *)
Definition punctuation : list ascii :=
  map ascii_of_nat (seq 33 15 ++ seq 58 7 ++ seq 91 6 ++ seq 123 4).

Definition is_punctuation (c : ascii) : bool :=
  existsb (Ascii.eqb c) punctuation.

(** [text.translate(str.maketrans('', '', string.punctuation))]: every
    punctuation character is deleted, every other character is kept. *)
Fixpoint translate (s : string) : string :=
  match s with
  | EmptyString => EmptyString
  | String c r =>
      if is_punctuation c then translate r else String c (translate r)
  end.

(** Case folding of the 26 ASCII capitals, every other byte unchanged.  This
    is SQLite's built-in [LOWER] exactly (it folds ASCII only, byte by byte),
    and it is Python's [str.lower] on ASCII text. *)
Definition lower_char (c : ascii) : ascii :=
  if (65 <=? code c)%nat && (code c <=? 90)%nat
  then ascii_of_nat (code c + 32) else c.

Fixpoint ascii_lower (s : string) : string :=
  match s with
  | EmptyString => EmptyString
  | String c r => String (lower_char c) (ascii_lower r)
  end.

(** The ASCII characters Python's [str.split()] treats as separators:
    tab, line feed, vertical tab, form feed, carriage return, the four
    separators 28..31 and the space. *)
Definition is_space (c : ascii) : bool :=
  ((9 <=? code c)%nat && (code c <=? 13)%nat)
  || ((28 <=? code c)%nat && (code c <=? 32)%nat).

Definition flush (cur : string) : list string :=
  match cur with
  | EmptyString => []
  | _ => [cur]
  end.

(** [s.split()] on ASCII text: maximal runs of non-separators, in order;
    [cur] is the token being read.  No empty token is produced. *)
Fixpoint split_from (cur : string) (s : string) : list string :=
  match s with
  | EmptyString => flush cur
  | String c r =>
      if is_space c then flush cur ++ split_from EmptyString r
      else split_from (cur ++ String c EmptyString) r
  end.

Definition ascii_split (s : string) : list string := split_from EmptyString s.

(** ** remove_html_tags *)

(** The pattern is [<.*?>], compiled without [re.DOTALL]: the dot matches
    any character except the newline. *)
Definition dot_matches (c : ascii) : bool := negb (Ascii.eqb c newline).

(** Length of the match of [.*?>] at the start of [s], if there is one.
    The quantifier is lazy: at each position the closing [>] is tried
    before the dot consumes one more character. *)
Fixpoint lazy_dots_gt (s : string) : option nat :=
  match s with
  | EmptyString => None
  | String c r =>
      if Ascii.eqb c ">" then Some 1%nat
      else if dot_matches c then option_map S (lazy_dots_gt r)
      else None
  end.

(** [re.sub(pattern, '', text)]: scan from the left; where a match starts,
    drop it and resume after it, otherwise keep the character.  [skip] is
    the number of characters of the current match still to drop. *)
Fixpoint sub_tags (skip : nat) (s : string) : string :=
  match s with
  | EmptyString => EmptyString
  | String c r =>
      match skip with
      | S k => sub_tags k r
      | O =>
          if Ascii.eqb c "<" then
            match lazy_dots_gt r with
            | Some n => sub_tags n r
            | None => String c (sub_tags 0 r)
            end
          else String c (sub_tags 0 r)
      end
  end.

Definition remove_html_tags (text : string) : string := sub_tags 0 text.

(** ** Stop words *)

(** The mangled entry of the source: [gutenberg] followed by the code points
    U+00E2, U+201E, U+00A2, here in UTF-8. *)
Definition gutenberg_mangled : string :=
  "gutenberg" ++
  string_of_list_ascii
    (map ascii_of_nat [195; 162; 226; 128; 158; 194; 162]%nat).

Definition STOP_WORDS : list string :=
  [ "the"; "and"; "to"; "of"; "a"; "in"; "is"; "it"; "for"; "on"; "with";
    "by"; "at"; "this"; "but"; "or"; "an"; "be"; "from"; "as"; "that"; "are";
    "was"; "were"; "will"; "would"; "should"; "could"; "can"; "may"; "might";
    "must";
    "project"; "gutenberg"; gutenberg_mangled; "ebook"; "edition"; "online";
    "http"; "www";
    "i"; "you"; "he"; "she"; "we"; "they"; "me"; "him"; "her"; "us"; "them";
    "my"; "your"; "his"; "her"; "its"; "our"; "their"; "mine"; "yours";
    "ours"; "theirs";
    "these"; "those"; "which"; "what"; "who"; "whom"; "whose"; "when";
    "where"; "why"; "how";
    "am"; "is"; "are"; "was"; "were"; "been"; "being";
    "have"; "has"; "had"; "having";
    "do"; "does"; "did"; "doing";
    "if"; "than"; "then"; "so"; "because"; "although"; "though"; "while";
    "before"; "after";
    "about"; "into"; "through"; "over"; "under"; "again"; "further"; "up";
    "down"; "out";
    "very"; "more"; "most"; "some"; "any"; "each"; "few"; "many"; "such";
    "only"; "just"; "now"; "too"; "also"; "even"; "still"; "yet";
    "thou"; "thee"; "thy"; "thine"; "hath"; "doth"; "shalt"; "art";
    "said"; "say"; "says"; "shall"; "come"; "came"; "go"; "went"; "know";
    "knew";
    "look"; "looked"; "see"; "saw"; "felt"; "thought"; "told"; "made";
    "make"; "found"; "asked"; "replied" ].

Definition TOP_WORDS_LIMIT : nat := 10.

(** ** Counting and ranking *)

(** A [Counter] is a dict: its items are kept in the order in which the
    keys were first inserted, and updating a key leaves it in place. *)
Definition counter : Type := list (string * Z).

(** [c[w] = c.get(w, 0) + 1]. *)
Fixpoint incr (w : string) (c : counter) : counter :=
  match c with
  | [] => [(w, 1)]
  | (k, n) :: c' =>
      if String.eqb k w then (k, n + 1) :: c' else (k, n) :: incr w c'
  end.

Definition Counter (words : list string) : counter :=
  fold_left (fun c w => incr w c) words [].

(** [sorted(items, key=itemgetter(1), reverse=True)]: a stable sort, so
    items of equal count keep the order they had in [items]. *)
Fixpoint insert_desc (x : string * Z) (l : list (string * Z))
  : list (string * Z) :=
  match l with
  | [] => [x]
  | y :: ys => if snd y <=? snd x then x :: l else y :: insert_desc x ys
  end.

Definition sorted_desc (items : list (string * Z)) : list (string * Z) :=
  fold_right insert_desc [] items.

(** [Counter.most_common(n)] is [heapq.nlargest(n, items, key=count)],
    which returns what [sorted(items, key=count, reverse=True)[:n]]
    returns. *)
Definition most_common (n : nat) (c : counter) : list (string * Z) :=
  firstn n (sorted_desc c).

Section Analyzer.

(** Python's built-in [str.lower] and [str.split], which depend on the
    Unicode character database; [ascii_lower] and [ascii_split] are what
    they compute on ASCII text. *)
Variable str_lower : string -> string.
Variable str_split : string -> list string.

(** The token stream after normalisation and stop-word filtering. *)
Definition filtered_words (stop : list string) (text : string)
  : list string :=
  let cleaned_text := str_lower (translate text) in
  filter (fun word => negb (mem word stop)) (str_split cleaned_text).

(** The body of [get_top_ten_words], with the stop-word collection and
    the limit it reads from the module and the class as arguments. *)
Definition rank_words (stop : list string) (limit : nat) (text : string)
  : list (string * Z) :=
  let words := filtered_words stop text in
  match words with
  | [] => []
  | _ => most_common limit (Counter words)
  end.

Definition get_top_ten_words (text : string) : list (string * Z) :=
  rank_words STOP_WORDS TOP_WORDS_LIMIT text.

End Analyzer.

(** ** Lists of keys *)

(** The distinct elements of a list, each at its first occurrence. *)
Fixpoint distinct (l : list string) : list string :=
  match l with
  | [] => []
  | x :: l' => x :: filter (fun y => negb (String.eqb y x)) (distinct l')
  end.

(** Position of the first occurrence of [w] in [l] ([length l] if none). *)
Fixpoint first_index (w : string) (l : list string) : nat :=
  match l with
  | [] => O
  | x :: l' => if String.eqb x w then O else S (first_index w l')
  end.

(** Number of occurrences of [w] in [l]. *)
Fixpoint occurrences (w : string) (l : list string) : Z :=
  match l with
  | [] => 0
  | x :: l' => (if String.eqb x w then 1 else 0) + occurrences w l'
  end.

(** [c[w]]: the count recorded for [w], 0 for a missing key. *)
Definition count_of (w : string) (c : counter) : Z :=
  match find (fun p => String.eqb (fst p) w) c with
  | Some p => snd p
  | None => 0
  end.

(** The order of a descending stable sort by count: a higher count first,
    and among equal counts the item that stood first, [before] being the
    order of the items in the list that is sorted. *)
Definition ranked_by (before : string * Z -> string * Z -> Prop)
    (a b : string * Z) : Prop :=
  snd b < snd a \/ (snd a = snd b /\ before a b).

(** The order of the ranking: a higher count first, and among equal counts
    the word met first in the token stream [words]. *)
Definition ranks_before (words : list string) : string * Z -> string * Z -> Prop :=
  ranked_by (fun a b =>
               (first_index (fst a) words < first_index (fst b) words)%nat).

(** Two titles that differ only in the case of ASCII letters. *)
Definition is_upper (c : ascii) : bool :=
  (65 <=? code c)%nat && (code c <=? 90)%nat.

Definition same_letter (a b : ascii) : bool :=
  Ascii.eqb a b
  || (is_upper a && (code b =? code a + 32)%nat)
  || (is_upper b && (code a =? code b + 32)%nat).

Fixpoint casing_variant (s t : string) : bool :=
  match s, t with
  | EmptyString, EmptyString => true
  | String a s', String b t' => same_letter a b && casing_variant s' t'
  | _, _ => false
  end.



(** ** BookManager: the SQLite store *)

Module BookManager.

(** A row of the table [books]. *)
Record row : Type := {
  id : Z;
  title : string;
  word : string;
  frequency : Z
}.

(** The table as the connection sees it: its rows in rowid order (the
    order of a full scan) and the [sqlite_sequence] entry that
    [AUTOINCREMENT] keeps, the largest rowid ever handed out. *)
Record table : Type := {
  rows : list row;
  sequence : Z
}.

(** A connection: [view] is the table as this connection reads it,
    uncommitted changes of its open transaction included; [durable] is
    the table as last committed. *)
Record conn : Type := {
  view : table;
  durable : table
}.

Definition empty_table : table := {| rows := []; sequence := 0 |}.
Definition fresh : conn := {| view := empty_table; durable := empty_table |}.

(** What the environment does to one operation: nothing, or it makes the
    [k]-th call into SQLite (counted from 0) fail with an [sqlite3.Error]
    that aborts this call alone and leaves the transaction as it is (the
    database is locked, a value is too big to be bound).  A failure on
    which SQLite itself rolls the transaction back (disk full, I/O error,
    out of memory) is not such a fault: it returns the view to the
    committed table, and the statements below that speak of the view after
    a fault say so where this matters. *)
Inductive fault : Type :=
| NoFault
| FailAt (k : nat).

Definition fails (flt : fault) (i : nat) : bool :=
  match flt with
  | NoFault => false
  | FailAt k => Nat.eqb k i
  end.

Inductive exn : Type :=
| Sqlite3Error
| RuntimeError
| OverflowError.

Inductive outcome (A : Type) : Type :=
| Returned (v : A) (c : conn)
| Raised (e : exn) (c : conn).
Arguments Returned {A} v c.
Arguments Raised {A} e c.

Definition conn_of {A : Type} (o : outcome A) : conn :=
  match o with
  | Returned _ c => c
  | Raised _ c => c
  end.

(** Methods are computations on the connection that return or raise. *)
Definition M (A : Type) : Type := conn -> outcome A.

Definition ret {A : Type} (v : A) : M A := fun c => Returned v c.

Definition bind {A B : Type} (m : M A) (k : A -> M B) : M B :=
  fun c =>
    match m c with
    | Returned v c' => k v c'
    | Raised e c' => Raised e c'
    end.

Definition raise {A : Type} (e : exn) : M A := fun c => Raised e c.

(** [try: body  except sqlite3.Error as e: raise RuntimeError(...)].
    The handler does nothing else: in particular it does not roll back. *)
Definition except_sqlite3 {A : Type} (body : M A) : M A :=
  fun c =>
    match body c with
    | Raised Sqlite3Error c' => Raised RuntimeError c'
    | o => o
    end.

Notation "m1 ;; m2" := (bind m1 (fun _ => m2))
  (at level 61, right associativity).

(** SQLite's [LOWER]. *)
Definition sqlite_lower : string -> string := ascii_lower.

(** An [int] is bound as a 64-bit signed integer; the [sqlite3] module
    raises [OverflowError] for any other. *)
Definition fits_int64 (n : Z) : bool :=
  (- 2 ^ 63 <=? n) && (n <? 2 ^ 63).

(** One step of [INSERT INTO books (title, word, frequency) VALUES
    (?,?,?)]: the new rowid is one more than the largest ever used. *)
Definition insert_row (tb : table) (p : string * string * Z) : table :=
  let '(t, w, f) := p in
  let i := sequence tb + 1 in
  {| rows := rows tb ++ [{| id := i; title := t; word := w; frequency := f |}];
     sequence := i |}.

(** [cursor.executemany(INSERT, params)]: the statement runs once per
    tuple, inside the transaction that the first one opens.  A tuple that
    cannot be bound, or a step aborted by a fault, stops the loop; the rows
    inserted by the earlier tuples stay in the open transaction.  [i] is
    the number of SQLite calls made so far. *)
Fixpoint insert_all (flt : fault) (i : nat) (tb : table)
    (params : list (string * string * Z)) : table * option exn :=
  match params with
  | [] => (tb, None)
  | p :: ps =>
      if negb (fits_int64 (snd p)) then (tb, Some OverflowError)
      else if fails flt i then (tb, Some Sqlite3Error)
      else insert_all flt (S i) (insert_row tb p) ps
  end.

Definition executemany_insert (flt : fault)
    (params : list (string * string * Z)) : M unit :=
  fun c =>
    match insert_all flt 0 (view c) params with
    | (tb, None) => Returned tt {| view := tb; durable := durable c |}
    | (tb, Some e) => Raised e {| view := tb; durable := durable c |}
    end.

(** [conn.commit()], as SQLite call number [i].  A commit aborted by a
    fault (the database is locked) leaves the transaction open. *)
Definition commit (flt : fault) (i : nat) : M unit :=
  fun c =>
    if fails flt i then Raised Sqlite3Error c
    else Returned tt {| view := view c; durable := view c |}.

(** [cursor.execute(DELETE ... WHERE cond)], as SQLite call number [i].
    The [sqlite_sequence] entry is not touched by a delete. *)
Definition execute_delete (flt : fault) (i : nat) (cond : row -> bool)
  : M unit :=
  fun c =>
    if fails flt i then Raised Sqlite3Error c
    else
      Returned tt
        {| view := {| rows := filter (fun r => negb (cond r)) (rows (view c));
                      sequence := sequence (view c) |};
           durable := durable c |}.

(** [cursor.execute(SELECT ...)] followed by [fetchall()], as SQLite call
    number [i]; [query] computes the result rows from the table.  A
    SELECT aborted by a fault leaves the transaction as it is. *)
Definition execute_select {A : Type} (flt : fault) (i : nat)
    (query : table -> A) : M A :=
  fun c =>
    if fails flt i then Raised Sqlite3Error c
    else Returned (query (view c)) c.

Definition save_book_data (flt : fault) (title : string)
    (top_words : list (string * Z)) : M unit :=
  let params := map (fun wf => (title, fst wf, snd wf)) top_words in
  except_sqlite3
    (executemany_insert flt params ;;
     commit flt (List.length params)).

(** [WHERE title = ?]: the default binary collation, an exact match. *)
Definition delete_book_data (flt : fault) (t : string) : M unit :=
  except_sqlite3
    (execute_delete flt 0 (fun r => String.eqb (title r) t) ;;
     commit flt 1).

Definition delete_all_records (flt : fault) : M unit :=
  except_sqlite3
    (execute_delete flt 0 (fun _ => true) ;;
     commit flt 1).

(** [SELECT word, frequency FROM books WHERE LOWER(title) = LOWER(?)]:
    a scan of the table in rowid order. *)
Definition matches (t : string) (stored : string) : bool :=
  String.eqb (sqlite_lower stored) (sqlite_lower t).

Definition select_words (t : string) (tb : table) : list (string * Z) :=
  map (fun r => (word r, frequency r))
      (filter (fun r => matches t (title r)) (rows tb)).

Definition fetch_book_data (flt : fault) (t : string)
  : M (list (string * Z)) :=
  except_sqlite3 (execute_select flt 0 (select_words t)).

(** [SELECT DISTINCT title FROM books ORDER BY id DESC]: SQLite walks the
    table from the largest rowid down, which gives the order asked for,
    and emits a title the first time it meets it. *)
Definition select_titles (tb : table) : list string :=
  distinct (map title (rev (rows tb))).

Definition fetch_all_titles (flt : fault) : M (list string) :=
  except_sqlite3 (execute_select flt 0 select_titles).

(** What [AUTOINCREMENT] maintains: rowids grow along the table and none
    exceeds the recorded sequence. *)
Definition table_ok (tb : table) : Prop :=
  StronglySorted Z.lt (map id (rows tb))
  /\ Forall (fun r => id r <= sequence tb) (rows tb).

(** The rowid of the most recently inserted row of title [t] (0 if the
    title has no row). *)
Definition latest_in (t : string) (l : list row) : Z :=
  match find (fun r => String.eqb (title r) t) l with
  | Some r => id r
  | None => 0
  end.

Definition latest_id (t : string) (tb : table) : Z :=
  latest_in t (rev (rows tb)).

(** The (word, frequency) pair of a bound parameter tuple. *)
Definition pair_of (p : string * string * Z) : string * Z :=
  (snd (fst p), snd p).

(** No row would be returned by a fetch of [t]. *)
Definition title_absent (t : string) (tb : table) : Prop :=
  Forall (fun r => sqlite_lower (title r) <> sqlite_lower t) (rows tb).

End BookManager.

(** ** sanitize_input *)

(** [sanitize_input] cuts its result by position, that is by code point, so
    for this function a [str] is the list of its code points. *)
Definition codepoints : Type := list N.

Section Sanitize.

(** [str.isspace] and [str.isalnum] of one character, as the Unicode
    database gives them; [str.strip], the [\s] and the [\w] of [re] are
    defined from them. *)
Variable isspace : N -> bool.
Variable isalnum : N -> bool.

Fixpoint lstrip (s : codepoints) : codepoints :=
  match s with
  | [] => []
  | c :: r => if isspace c then lstrip r else s
  end.

(** [text.strip()]: leading and trailing whitespace is dropped. *)
Definition strip (s : codepoints) : codepoints :=
  rev (lstrip (rev (lstrip s))).

(** The characters outside the class [[^\w\s-]]: a word character
    (alphanumeric or the underscore, 95), whitespace, or the hyphen, 45. *)
Definition kept (c : N) : bool :=
  isalnum c || (c =? 95)%N || isspace c || (c =? 45)%N.

(** [re.sub(r'[^\w\s-]', '', text.strip())[:max_length]]; the only caller
    uses the default [max_length] of 255, and a length is not negative. *)
Definition sanitize_input (text : codepoints) (max_length : nat)
  : codepoints :=
  firstn max_length (filter kept (strip text)).

(** The slice [l[:stop]] for any [int]: the first [stop] elements, or, for
    a negative [stop], all but the last [-stop]. *)
Definition slice_to (l : codepoints) (stop : Z) : codepoints :=
  if 0 <=? stop then firstn (Z.to_nat stop) l
  else firstn (List.length l - Z.to_nat (- stop)) l.

(** [sanitize_input] with [max_length] the [int] of the source, negative
    values included; on a length that is not negative it is
    [sanitize_input] above. *)
Definition sanitize_input_int (text : codepoints) (max_length : Z)
  : codepoints :=
  slice_to (filter kept (strip text)) max_length.

End Sanitize.

(** ** BookSearchApp: the handlers *)

Module BookSearchApp.

Import BookManager.

(** What [populate_history] leaves in the list box: the titles, or nothing
    and an error dialog. *)
Inductive listing : Type :=
| Listed (titles : list string)
| ListingFailed.

(** What a handler leaves on the screen: a dialog, or the output text.
    [Shown top_words history] is the table written by [display_top_words],
    with the list box as refreshed by the handler, if it refreshed it. *)
Inductive screen : Type :=
| WarnEmptyTitle
| InfoTitleExists
| WarnInvalidUrl
| WarnNoSelection
| TextBookNotFound
| TextNoWords
| Shown (top_words : list (string * Z)) (history : option listing)
| Refreshed (history : listing)
| Declined
| ErrorDialog.

(** [try: body  except RuntimeError as e: messagebox.showerror(...)]. *)
Definition except_RuntimeError (body : M screen) : M screen :=
  fun c =>
    match body c with
    | Raised RuntimeError c' => Returned ErrorDialog c'
    | o => o
    end.

(** [populate_history]: the list box is cleared and refilled from
    [fetch_all_titles]; a [RuntimeError] ends in a dialog, inside. *)
Definition populate_history (flt : fault) : M listing :=
  fun c =>
    match fetch_all_titles flt c with
    | Returned titles c' => Returned (Listed titles) c'
    | Raised RuntimeError c' => Returned ListingFailed c'
    | Raised e c' => Raised e c'
    end.

(** [sorted(results, key=lambda x: x[1], reverse=True)[:TOP_WORDS_LIMIT]]. *)
Definition results_sorted (results : list (string * Z))
  : list (string * Z) :=
  firstn TOP_WORDS_LIMIT (sorted_desc results).

(** [fetch_text_from_url], given what the request and the decoding of the
    body produce: the decoded text, or nothing when any step raised (every
    exception is turned into a [RuntimeError]). *)
Definition fetch_text_from_url (page : option string) : M string :=
  match page with
  | Some text => ret (remove_html_tags text)
  | None => raise RuntimeError
  end.

Section Handlers.

Variable str_lower : string -> string.
Variable str_split : string -> list string.
(** Python's [str.strip]. *)
Variable str_strip : string -> string.

(** [search_by_title], on the content of the title entry. *)
Definition search_by_title (flt : fault) (title : string) : M screen :=
  match str_strip title with
  | EmptyString => ret WarnEmptyTitle
  | _ =>
      except_RuntimeError
        (bind (fetch_book_data flt title) (fun results =>
           match results with
           | [] => ret TextBookNotFound
           | _ => ret (Shown (results_sorted results) None)
           end))
  end.

(** [search_by_url].  [title] is the sanitized content of the title entry;
    [url_ok] tells whether the stripped URL is non-empty and passes
    [is_valid_gutenberg_url]; [page] is what the request for it produces.
    The four faults are those of the four store operations, in order. *)
Definition search_by_url (f1 f2 f3 f4 : fault) (title : string)
    (url_ok : bool) (page : option string) : M screen :=
  match title with
  | EmptyString => ret WarnEmptyTitle
  | _ =>
      bind (fetch_book_data f1 title) (fun existing_data =>
        match existing_data with
        | _ :: _ => ret InfoTitleExists
        | [] =>
            if negb url_ok then ret WarnInvalidUrl
            else
              except_RuntimeError
                (delete_book_data f2 title ;;
                 bind (fetch_text_from_url page) (fun text_content =>
                   let top_words :=
                     get_top_ten_words str_lower str_split text_content in
                   match top_words with
                   | [] => ret TextNoWords
                   | _ =>
                       save_book_data f3 title top_words ;;
                       bind (populate_history f4) (fun history =>
                         ret (Shown top_words (Some history)))
                   end))
        end)
  end.

(** [delete_selected_search], on the title selected in the list box, if
    one is. *)
Definition delete_selected_search (f1 f2 : fault)
    (selection : option string) : M screen :=
  match selection with
  | None => ret WarnNoSelection
  | Some title =>
      except_RuntimeError
        (delete_book_data f1 title ;;
         bind (populate_history f2) (fun history => ret (Refreshed history)))
  end.

(** The handler [delete_all_records], on the answer to its confirmation
    dialog. *)
Definition delete_all_records (f1 f2 : fault) (confirmed : bool)
  : M screen :=
  if confirmed then
    except_RuntimeError
      (BookManager.delete_all_records f1 ;;
       bind (populate_history f2) (fun history => ret (Refreshed history)))
  else ret Declined.

End Handlers.

(** Titles are unique up to case: rows whose titles a fetch does not tell
    apart carry the same title. *)
Definition case_unique (tb : table) : Prop :=
  forall r1 r2, In r1 (rows tb) -> In r2 (rows tb) ->
    matches (title r1) (title r2) = true -> title r1 = title r2.

(** No fetch returns more than [TOP_WORDS_LIMIT] rows. *)
Definition bounded (tb : table) : Prop :=
  forall t, (List.length (select_words t tb) <= TOP_WORDS_LIMIT)%nat.

End BookSearchApp.

(** * Properties *)

(** ** Lists *)

Lemma mem_In (w : string) (l : list string) : mem w l = true <-> In w l.
Proof.
  unfold mem. rewrite existsb_exists. split.
  - intros [x [Hin Heq]]. apply String.eqb_eq in Heq. now subst.
  - intros Hin. exists w. split; [assumption | apply String.eqb_refl].
Qed.

Lemma mem_app (w : string) (l1 l2 : list string) :
  mem w (l1 ++ l2) = mem w l1 || mem w l2.
Proof. unfold mem. apply existsb_app. Qed.

Lemma filter_twice {A : Type} (p q : A -> bool) (l : list A) :
  filter p (filter q l) = filter (fun x => p x && q x) l.
Proof.
  induction l as [| x l IH]; simpl; [reflexivity |].
  destruct (q x); simpl.
  - rewrite andb_true_r. destruct (p x); now rewrite IH.
  - now rewrite andb_false_r.
Qed.

Lemma filter_all {A : Type} (p : A -> bool) (l : list A) :
  (forall x, In x l -> p x = true) -> filter p l = l.
Proof.
  induction l as [| x l IH]; simpl; intros H; [reflexivity |].
  rewrite (H x (or_introl eq_refl)). f_equal. apply IH. intros; apply H; now right.
Qed.

Lemma Forall_firstn_keep {A : Type} (P : A -> Prop) (n : nat) (l : list A) :
  Forall P l -> Forall P (firstn n l).
Proof.
  intros H. revert n. induction H; intros [| n]; simpl; constructor; auto.
Qed.

Lemma In_firstn_keep {A : Type} (x : A) (n : nat) (l : list A) :
  In x (firstn n l) -> In x l.
Proof.
  revert n. induction l as [| y l IH]; intros [| n]; simpl; try tauto.
  intros [H | H]; [now left | right; now apply (IH n)].
Qed.

Section Sorted_lists.

Context {A : Type}.
Variables R R' : A -> A -> Prop.

Lemma StronglySorted_filter_keep (f : A -> bool) (l : list A) :
  StronglySorted R l -> StronglySorted R (filter f l).
Proof.
  induction 1 as [| x l Hs IH Hx]; simpl; [constructor |].
  destruct (f x); [| assumption].
  constructor; [assumption |].
  rewrite Forall_forall in *. intros y Hy.
  apply filter_In in Hy. now apply Hx.
Qed.

Lemma StronglySorted_firstn_keep (n : nat) (l : list A) :
  StronglySorted R l -> StronglySorted R (firstn n l).
Proof.
  intros H. revert n.
  induction H as [| x l Hs IH Hx]; intros [| n]; simpl; try constructor.
  - apply IH.
  - now apply Forall_firstn_keep.
Qed.

Lemma StronglySorted_change (l : list A) :
  (forall a b, In a l -> In b l -> R a b -> R' a b) ->
  StronglySorted R l -> StronglySorted R' l.
Proof.
  intros Himp H. induction H as [| x l Hs IH Hx]; [constructor |].
  constructor.
  - apply IH. intros a b Ha Hb. apply Himp; now right.
  - rewrite Forall_forall in *. intros y Hy.
    apply Himp; [now left | now right | now apply Hx].
Qed.

End Sorted_lists.

Lemma StronglySorted_map_back {A B : Type} (f : A -> B)
    (R : B -> B -> Prop) (l : list A) :
  StronglySorted R (map f l) ->
  StronglySorted (fun a b => R (f a) (f b)) l.
Proof.
  induction l as [| x l IH]; simpl; intros H; [constructor |].
  inversion H as [| ? ? Hs Hx]; subst.
  constructor; [now apply IH |].
  rewrite Forall_forall in *. intros y Hy. apply Hx. now apply in_map.
Qed.

(** ** distinct, first_index, occurrences *)

Lemma In_distinct (w : string) (l : list string) :
  In w (distinct l) <-> In w l.
Proof.
  induction l as [| x l IH]; simpl; [tauto |].
  rewrite filter_In, IH. destruct (String.eqb_spec w x) as [-> | Hne]; simpl.
  - tauto.
  - split.
    + intros [H | [H _]]; [now left | now right].
    + intros [H | H]; [now left | right; now split].
Qed.

Lemma NoDup_distinct (l : list string) : NoDup (distinct l).
Proof.
  induction l as [| x l IH]; simpl; constructor.
  - rewrite filter_In. intros [_ H]. now rewrite String.eqb_refl in H.
  - now apply NoDup_filter.
Qed.

Lemma distinct_by_first_index (l : list string) :
  StronglySorted (fun a b => (first_index a l < first_index b l)%nat)
                 (distinct l).
Proof.
  induction l as [| x l IH]; simpl; constructor.
  - apply StronglySorted_filter_keep with (f := fun y => negb (String.eqb y x))
      in IH.
    revert IH. apply StronglySorted_change.
    intros a b Ha Hb Hlt.
    apply filter_In in Ha, Hb. destruct Ha as [_ Ha], Hb as [_ Hb].
    rewrite (String.eqb_sym x a), (String.eqb_sym x b).
    destruct (String.eqb a x), (String.eqb b x); try discriminate. lia.
  - rewrite Forall_forall. intros y Hy. apply filter_In in Hy.
    destruct Hy as [_ Hy]. rewrite String.eqb_refl, (String.eqb_sym x y).
    destruct (String.eqb y x); [discriminate | lia].
Qed.

Lemma occurrences_nonneg (w : string) (l : list string) :
  0 <= occurrences w l.
Proof.
  induction l as [| x l IH]; simpl; [lia |].
  destruct (String.eqb x w); lia.
Qed.

Lemma occurrences_app (w : string) (l1 l2 : list string) :
  occurrences w (l1 ++ l2) = occurrences w l1 + occurrences w l2.
Proof. induction l1 as [| x l1 IH]; simpl; [reflexivity | rewrite IH; lia]. Qed.

Lemma occurrences_pos (w : string) (l : list string) :
  In w l -> 1 <= occurrences w l.
Proof.
  induction l as [| x l IH]; simpl; [tauto |].
  intros [-> | H].
  - rewrite String.eqb_refl. pose proof (occurrences_nonneg w l). lia.
  - specialize (IH H). destruct (String.eqb x w); lia.
Qed.

(** ** The counter *)

Lemma keys_incr (w : string) (c : counter) :
  map fst (incr w c)
  = if mem w (map fst c) then map fst c else (map fst c ++ [w])%list.
Proof.
  induction c as [| [k n] c IH]; simpl; [reflexivity |].
  rewrite (String.eqb_sym w k).
  destruct (String.eqb k w); simpl; [reflexivity |].
  rewrite IH. unfold mem. now destruct (existsb (String.eqb w) (map fst c)).
Qed.

Lemma keys_fold (l : list string) (c : counter) :
  map fst (fold_left (fun c w => incr w c) l c)
  = (map fst c
     ++ filter (fun w => negb (mem w (map fst c))) (distinct l))%list.
Proof.
  revert c. induction l as [| x l IH]; intros c; simpl.
  - now rewrite app_nil_r.
  - rewrite IH, keys_incr, filter_twice.
    destruct (mem x (map fst c)) eqn:E; simpl.
    + f_equal. apply filter_ext_in. intros y _.
      destruct (String.eqb_spec y x) as [-> | _]; simpl.
      * now rewrite E.
      * now rewrite andb_true_r.
    + rewrite <- app_assoc. simpl. do 2 f_equal.
      apply filter_ext. intros y. rewrite mem_app. simpl.
      unfold mem at 2. simpl. rewrite orb_false_r.
      now rewrite negb_orb.
Qed.

Lemma keys_Counter (words : list string) :
  map fst (Counter words) = distinct words.
Proof.
  unfold Counter. rewrite keys_fold. simpl.
  apply filter_all. reflexivity.
Qed.

Lemma count_of_incr (w x : string) (c : counter) :
  count_of w (incr x c)
  = count_of w c + (if String.eqb x w then 1 else 0).
Proof.
  unfold count_of.
  induction c as [| [k n] c IH]; simpl.
  - destruct (String.eqb x w); reflexivity.
  - destruct (String.eqb_spec k x) as [-> | Hkx]; simpl.
    + destruct (String.eqb x w); simpl; lia.
    + destruct (String.eqb_spec k w) as [-> | Hkw]; simpl.
      * destruct (String.eqb_spec x w); [congruence | lia].
      * apply IH.
Qed.

Lemma count_of_fold (w : string) (l : list string) (c : counter) :
  count_of w (fold_left (fun c w => incr w c) l c)
  = count_of w c + occurrences w l.
Proof.
  revert c. induction l as [| x l IH]; intros c; simpl; [lia |].
  rewrite IH, count_of_incr. lia.
Qed.

Lemma count_of_item (w : string) (n : Z) (c : counter) :
  NoDup (map fst c) -> In (w, n) c -> count_of w c = n.
Proof.
  unfold count_of.
  induction c as [| [k m] c IH]; simpl; intros Hnd Hin; [tauto |].
  inversion Hnd as [| ? ? Hk Hnd']; subst.
  destruct Hin as [Heq | Hin].
  - inversion Heq; subst. now rewrite String.eqb_refl.
  - destruct (String.eqb_spec k w) as [-> | _]; simpl.
    + exfalso. apply Hk. change w with (fst (w, n)). now apply in_map.
    + now apply IH.
Qed.

(** Every item of the counter carries the number of occurrences of its
    word, and that word occurs. *)
Lemma Counter_items (words : list string) (p : string * Z) :
  In p (Counter words) ->
  snd p = occurrences (fst p) words /\ In (fst p) words.
Proof.
  intros Hin. destruct p as [w n]. simpl. split.
  - rewrite <- (count_of_item w n (Counter words)).
    + unfold Counter. now rewrite count_of_fold.
    + rewrite keys_Counter. apply NoDup_distinct.
    + assumption.
  - apply In_distinct. rewrite <- keys_Counter.
    change w with (fst (w, n)). now apply in_map.
Qed.

(** ** The stable descending sort *)

Lemma In_insert_desc (x y : string * Z) (l : list (string * Z)) :
  In y (insert_desc x l) <-> x = y \/ In y l.
Proof.
  induction l as [| z l IH]; simpl; [tauto |].
  destruct (snd z <=? snd x); simpl; [tauto | rewrite IH; tauto].
Qed.

Lemma In_sorted_desc (y : string * Z) (l : list (string * Z)) :
  In y (sorted_desc l) <-> In y l.
Proof.
  induction l as [| x l IH]; simpl; [tauto |].
  rewrite In_insert_desc, IH. tauto.
Qed.

Section Stable_sort.

(** [before] is the order the items have in the list to be sorted. *)
Variable before : string * Z -> string * Z -> Prop.

Lemma insert_desc_ranked (x : string * Z) (s : list (string * Z)) :
  StronglySorted (ranked_by before) s -> Forall (before x) s ->
  StronglySorted (ranked_by before) (insert_desc x s).
Proof.
  induction 1 as [| y ys Hs IH Hy]; intros Hx; simpl.
  - repeat constructor.
  - inversion Hx as [| ? ? Hxy Hxys]; subst.
    destruct (Z.leb_spec (snd y) (snd x)) as [Hle | Hlt].
    + constructor; [now constructor |].
      constructor.
      * unfold ranked_by. destruct (Z.eq_dec (snd x) (snd y)); [right | left]; auto.
        lia.
      * rewrite Forall_forall in *. intros z Hz.
        assert (Hzy : snd z <= snd y).
        { destruct (Hy z Hz) as [H | [H _]]; lia. }
        unfold ranked_by. destruct (Z.eq_dec (snd x) (snd z)); [right | left]; auto.
        lia.
    + constructor; [now apply IH |].
      rewrite Forall_forall in *. intros z Hz.
      apply In_insert_desc in Hz. destruct Hz as [<- | Hz].
      * left. assumption.
      * now apply Hy.
Qed.

Lemma sorted_desc_ranked (l : list (string * Z)) :
  StronglySorted before l -> StronglySorted (ranked_by before) (sorted_desc l).
Proof.
  induction 1 as [| x l Hs IH Hx]; simpl; [constructor |].
  apply insert_desc_ranked; [assumption |].
  rewrite Forall_forall in *. intros z Hz.
  apply Hx. now apply In_sorted_desc.
Qed.

End Stable_sort.

(** ** The ranking *)

Lemma Counter_by_first_index (words : list string) :
  StronglySorted
    (fun a b : string * Z =>
       (first_index (fst a) words < first_index (fst b) words)%nat)
    (Counter words).
Proof.
  apply StronglySorted_map_back with
    (R := fun a b => (first_index a words < first_index b words)%nat).
  rewrite keys_Counter. apply distinct_by_first_index.
Qed.

Lemma most_common_ranked (limit : nat) (words : list string) :
  StronglySorted (ranks_before words) (most_common limit (Counter words)).
Proof.
  unfold most_common. apply StronglySorted_firstn_keep.
  apply (sorted_desc_ranked _ _ (Counter_by_first_index words)).
Qed.

Lemma most_common_items (limit : nat) (words : list string) (p : string * Z) :
  In p (most_common limit (Counter words)) -> In p (Counter words).
Proof.
  unfold most_common. intros H.
  apply In_sorted_desc. revert H. apply In_firstn_keep.
Qed.

Lemma rank_words_items (str_lower : string -> string)
    (str_split : string -> list string)
    (stop : list string) (limit : nat) (text : string) (p : string * Z) :
  In p (rank_words str_lower str_split stop limit text) ->
  In p (Counter (filtered_words str_lower str_split stop text)).
Proof.
  unfold rank_words.
  destruct (filtered_words str_lower str_split stop text) eqn:E;
    [intros [] |].
  apply most_common_items.
Qed.

(** C1. For every text, stop-word collection and limit, the result of the
    ranking is ordered by frequency descending, two words of equal
    frequency stand in the order of their first occurrence in the filtered
    token stream, and each frequency is the number of occurrences of its
    word in that stream.  On the text of the example, with stop words
    [the] and [on] and limit 10, and also with the program's own stop
    words, the result is cat 2, sat 1, mat 1, ran 1. *)
Theorem rank_words_order :
  (forall (str_lower : string -> string) (str_split : string -> list string)
          (stop : list string) (limit : nat) (text : string),
      let words := filtered_words str_lower str_split stop text in
      let ranked := rank_words str_lower str_split stop limit text in
      StronglySorted (ranks_before words) ranked
      /\ Forall (fun p => snd p = occurrences (fst p) words) ranked)
  /\ rank_words ascii_lower ascii_split ["the"; "on"] 10
       "the cat sat on the mat. The CAT ran."
     = [("cat", 2); ("sat", 1); ("mat", 1); ("ran", 1)]
  /\ get_top_ten_words ascii_lower ascii_split
       "the cat sat on the mat. The CAT ran."
     = [("cat", 2); ("sat", 1); ("mat", 1); ("ran", 1)].
Proof.
  split; [| split; vm_compute; reflexivity].
  intros str_lower str_split stop limit text words ranked. split.
  - subst ranked. unfold rank_words. fold words.
    destruct words as [| w ws] eqn:E; [constructor |].
    apply most_common_ranked.
  - rewrite Forall_forall. intros p Hp.
    apply rank_words_items in Hp. now apply Counter_items in Hp.
Qed.

(** The words left out by the limit rank after every word kept. *)
Lemma most_common_cut (limit : nat) (words : list string)
    (p q : string * Z) :
  In p (most_common limit (Counter words)) ->
  In q (skipn limit (sorted_desc (Counter words))) ->
  ranks_before words p q.
Proof.
  unfold most_common. intros Hp Hq.
  pose proof (sorted_desc_ranked _ _ (Counter_by_first_index words)) as Hs.
  rewrite <- (firstn_skipn limit (sorted_desc (Counter words))) in Hs.
  revert Hp Hq Hs.
  generalize (firstn limit (sorted_desc (Counter words))) as front.
  generalize (skipn limit (sorted_desc (Counter words))) as back.
  intros back front. induction front as [| x front IH]; simpl; [tauto |].
  intros [<- | Hp] Hq Hs; inversion Hs as [| ? ? Hs' Hx]; subst.
  - rewrite Forall_forall in Hx. apply Hx. apply in_or_app. now right.
  - now apply IH.
Qed.

Lemma incr_positive (w : string) (c : counter) :
  Forall (fun p => 1 <= snd p) c -> Forall (fun p => 1 <= snd p) (incr w c).
Proof.
  induction 1 as [| [k n] c Hk Hc IH]; simpl.
  - repeat constructor. simpl. lia.
  - destruct (String.eqb k w); constructor; simpl in *; auto. lia.
Qed.

Lemma fold_incr_positive (l : list string) (c : counter) :
  Forall (fun p => 1 <= snd p) c ->
  Forall (fun p => 1 <= snd p) (fold_left (fun c w => incr w c) l c).
Proof.
  revert c. induction l as [| x l IH]; intros c Hc; simpl; [assumption |].
  apply IH. now apply incr_positive.
Qed.

(** C6. For every text, the result of [get_top_ten_words] has at most 10
    entries, each with a frequency of at least 1, and it is the empty list
    when no token survives the stop-word filter. *)
Theorem get_top_ten_words_bounds (str_lower : string -> string)
    (str_split : string -> list string) (text : string) :
  (List.length (get_top_ten_words str_lower str_split text) <= 10)%nat
  /\ Forall (fun p => 1 <= snd p)
            (get_top_ten_words str_lower str_split text)
  /\ (filtered_words str_lower str_split STOP_WORDS text = [] ->
      get_top_ten_words str_lower str_split text = []).
Proof.
  unfold get_top_ten_words. split; [| split].
  - unfold rank_words.
    destruct (filtered_words str_lower str_split STOP_WORDS text);
      [simpl; lia |].
    unfold most_common. apply firstn_le_length.
  - rewrite Forall_forall. intros p Hp. apply rank_words_items in Hp.
    revert p Hp. rewrite <- Forall_forall.
    unfold Counter. apply fold_incr_positive. constructor.
  - unfold rank_words. now intros ->.
Qed.

Lemma get_top_ten_words_bounds_witness :
  filtered_words ascii_lower ascii_split STOP_WORDS "The and OF; it!" = []
  /\ get_top_ten_words ascii_lower ascii_split "The and OF; it!" = [].
Proof.
  split; [vm_compute; reflexivity |].
  apply (get_top_ten_words_bounds ascii_lower ascii_split "The and OF; it!").
  vm_compute; reflexivity.
Defined.

(** C7. For every text, no stop word appears in the result of
    [get_top_ten_words]: every word of the result is a token of the
    lowercased text that is not a stop word, whatever casing it had in the
    input. *)
Theorem get_top_ten_words_no_stop_word (str_lower : string -> string)
    (str_split : string -> list string) (text : string) (w : string) :
  In w STOP_WORDS ->
  ~ In w (map fst (get_top_ten_words str_lower str_split text)).
Proof.
  intros Hstop Hin. apply in_map_iff in Hin. destruct Hin as [p [<- Hp]].
  unfold get_top_ten_words in Hp. apply rank_words_items in Hp.
  apply Counter_items in Hp. destruct Hp as [_ Hp].
  unfold filtered_words in Hp. apply filter_In in Hp. destruct Hp as [_ Hp].
  apply mem_In in Hstop. rewrite Hstop in Hp. discriminate.
Qed.

Lemma get_top_ten_words_no_stop_word_witness :
  In "the" STOP_WORDS
  /\ ~ In "the"
       (map fst (get_top_ten_words ascii_lower ascii_split
                   "The whale, THE sea and tHe ship."))
  /\ get_top_ten_words ascii_lower ascii_split
       "The whale, THE sea and tHe ship."
     = [("whale", 1); ("sea", 1); ("ship", 1)].
Proof.
  assert (H : In "the" STOP_WORDS) by (now left).
  split; [exact H |]. split; [| vm_compute; reflexivity].
  exact (get_top_ten_words_no_stop_word ascii_lower ascii_split
           "The whale, THE sea and tHe ship." "the" H).
Defined.

(** ** remove_html_tags *)

Lemma lazy_dots_gt_closed (body rest : string) :
  contains ">" body = false -> contains newline body = false ->
  lazy_dots_gt (body ++ String ">" rest) = Some (S (String.length body)).
Proof.
  induction body as [| c body IH]; simpl; intros Hgt Hnl; [reflexivity |].
  apply orb_false_elim in Hgt, Hnl.
  destruct Hgt as [Hc Hgt], Hnl as [Hc' Hnl].
  unfold dot_matches. rewrite Hc, Hc'. simpl. now rewrite IH.
Qed.

Lemma lazy_dots_gt_broken (body rest : string) :
  contains ">" body = false ->
  lazy_dots_gt (body ++ String newline rest) = None.
Proof.
  induction body as [| c body IH]; simpl; intros Hgt; [reflexivity |].
  apply orb_false_elim in Hgt. destruct Hgt as [Hc Hgt].
  rewrite Hc, (IH Hgt). now destruct (dot_matches c).
Qed.

Lemma sub_tags_skip (body rest : string) (c : ascii) :
  sub_tags (S (String.length body)) (body ++ String c rest)
  = sub_tags 0 rest.
Proof. induction body as [| d body IH]; simpl; [reflexivity | exact IH]. Qed.

(** A tag that holds no line break is removed whole. *)
Lemma remove_html_tags_tag (body rest : string) :
  contains ">" body = false -> contains newline body = false ->
  remove_html_tags (String "<" (body ++ String ">" rest))
  = remove_html_tags rest.
Proof.
  intros Hgt Hnl. unfold remove_html_tags. simpl.
  rewrite (lazy_dots_gt_closed body rest Hgt Hnl). apply sub_tags_skip.
Qed.

(** A [<] followed by a line break before any [>] opens no match: the
    character is kept and the scan goes on after it. *)
Lemma remove_html_tags_line_break (body rest : string) :
  contains ">" body = false ->
  remove_html_tags (String "<" (body ++ String newline rest))
  = String "<" (remove_html_tags (body ++ String newline rest)).
Proof.
  intros Hgt. unfold remove_html_tags. simpl.
  now rewrite (lazy_dots_gt_broken body rest Hgt).
Qed.

(** Text without [<] comes back unchanged: entities are not decoded. *)
Lemma remove_html_tags_plain (text : string) :
  contains "<" text = false -> remove_html_tags text = text.
Proof.
  unfold remove_html_tags.
  induction text as [| c text IH]; simpl; intros H; [reflexivity |].
  apply orb_false_elim in H. destruct H as [Hc H].
  rewrite Hc. now rewrite IH.
Qed.

Example remove_html_tags_doc :
  remove_html_tags "<p>Hello</p> <b>World</b>" = "Hello World".
Proof. reflexivity. Qed.

Example remove_html_tags_entities :
  remove_html_tags "<i>Fish &amp; Chips</i> &lt;" = "Fish &amp; Chips &lt;".
Proof. reflexivity. Qed.

(** C3. [remove_html_tags] is to remove every substring [<...>], tags that
    span a line break included.  On an anchor tag whose attribute stands on
    a second line it removes the closing tag only: the opening tag, which
    holds a newline, comes back untouched. *)
Theorem remove_html_tags_keeps_multiline_tag :
  remove_html_tags ("<a" ++ String newline "href=x>link</a>")
  = "<a" ++ String newline "href=x>link".
Proof. reflexivity. Qed.

(** ** Case folding *)

Lemma lower_char_same_letter (a b : ascii) :
  same_letter a b = true -> lower_char a = lower_char b.
Proof.
  assert (Hside : forall x y : ascii,
             is_upper x = true -> (code y =? code x + 32)%nat = true ->
             lower_char x = lower_char y).
  { intros x y Hx Hy. apply Nat.eqb_eq in Hy.
    unfold lower_char, is_upper in *. rewrite Hx, Hy.
    apply andb_true_iff in Hx. destruct Hx as [Hlo Hhi].
    apply Nat.leb_le in Hlo, Hhi.
    replace ((65 <=? code x + 32)%nat && (code x + 32 <=? 90)%nat)
      with false.
    - rewrite <- Hy. unfold code. now rewrite ascii_nat_embedding.
    - symmetry. apply andb_false_iff. right. apply Nat.leb_gt. lia. }
  unfold same_letter. intros H.
  apply orb_true_iff in H. destruct H as [H | H].
  - apply orb_true_iff in H. destruct H as [H | H].
    + apply Ascii.eqb_eq in H. now subst.
    + apply andb_true_iff in H. destruct H as [Hu He]. now apply Hside.
  - apply andb_true_iff in H. destruct H as [Hu He].
    symmetry. now apply Hside.
Qed.

Lemma ascii_lower_casing_variant (s t : string) :
  casing_variant s t = true -> ascii_lower s = ascii_lower t.
Proof.
  revert t. induction s as [| a s IH]; intros [| b t]; simpl;
    try discriminate; [reflexivity |].
  intros H. apply andb_true_iff in H. destruct H as [Hab Hst].
  now rewrite (lower_char_same_letter a b Hab), (IH t Hst).
Qed.

Lemma casing_variant_refl (s : string) : casing_variant s s = true.
Proof.
  induction s as [| a s IH]; simpl; [reflexivity |].
  unfold same_letter. now rewrite Ascii.eqb_refl, IH.
Qed.

Example casing_variant_moby : casing_variant "Moby Dick" "moby dick" = true.
Proof. reflexivity. Qed.

(** ** The store *)

Import BookManager.

Lemma StronglySorted_app_join {A : Type} (R : A -> A -> Prop)
    (l1 l2 : list A) :
  StronglySorted R l1 -> StronglySorted R l2 ->
  (forall a b, In a l1 -> In b l2 -> R a b) ->
  StronglySorted R (l1 ++ l2)%list.
Proof.
  intros H1 H2 H. induction H1 as [| x l1 Hs IH Hx]; simpl; [assumption |].
  constructor.
  - apply IH. intros a b Ha. apply H. now right.
  - apply Forall_app. split; [assumption |].
    rewrite Forall_forall. intros b Hb. apply H; [now left | assumption].
Qed.

Lemma StronglySorted_rev_flip {A : Type} (R : A -> A -> Prop) (l : list A) :
  StronglySorted R l -> StronglySorted (fun a b => R b a) (rev l).
Proof.
  induction 1 as [| x l Hs IH Hx]; simpl; [constructor |].
  apply StronglySorted_app_join; [assumption | repeat constructor |].
  intros a b Ha [<- | []]. rewrite Forall_forall in Hx.
  apply Hx. now apply in_rev.
Qed.

Lemma StronglySorted_map_there {A B : Type} (f : A -> B)
    (R : B -> B -> Prop) (l : list A) :
  StronglySorted (fun a b => R (f a) (f b)) l ->
  StronglySorted R (map f l).
Proof.
  induction 1 as [| x l Hs IH Hx]; simpl; constructor; [assumption |].
  rewrite Forall_forall in *. intros y Hy.
  apply in_map_iff in Hy. destruct Hy as [z [<- Hz]]. now apply Hx.
Qed.

(** *** Inserting *)

Lemma select_words_insert_row (t : string) (tb : table)
    (p : string * string * Z) :
  select_words t (insert_row tb p)
  = (select_words t tb
     ++ (if matches t (fst (fst p)) then [pair_of p] else []))%list.
Proof.
  destruct p as [[t0 w] f]. unfold select_words, pair_of. simpl.
  rewrite filter_app, map_app. simpl.
  now destruct (matches t t0).
Qed.

Lemma select_words_insert_rows (t : string) (params : list (string * string * Z))
    (tb : table) :
  select_words t (fold_left insert_row params tb)
  = (select_words t tb
     ++ map pair_of (filter (fun p => matches t (fst (fst p))) params))%list.
Proof.
  revert tb. induction params as [| p ps IH]; intros tb; simpl.
  - now rewrite app_nil_r.
  - rewrite IH, select_words_insert_row, <- app_assoc. f_equal.
    now destruct (matches t (fst (fst p))).
Qed.

Lemma insert_all_no_fault (i : nat) (tb : table)
    (params : list (string * string * Z)) :
  Forall (fun p => fits_int64 (snd p) = true) params ->
  insert_all NoFault i tb params = (fold_left insert_row params tb, None).
Proof.
  intros H. revert i tb.
  induction H as [| p ps Hp Hps IH]; intros i tb; simpl; [reflexivity |].
  rewrite Hp. simpl. apply IH.
Qed.


Lemma params_fit (t : string) (ws : list (string * Z)) :
  Forall (fun p => fits_int64 (snd p) = true) ws ->
  Forall (fun p : string * string * Z => fits_int64 (snd p) = true)
         (map (fun wf => (t, fst wf, snd wf)) ws).
Proof. induction 1; simpl; constructor; auto. Qed.

Lemma params_titled (t : string) (ws : list (string * Z)) :
  Forall (fun p : string * string * Z => fst (fst p) = t)
         (map (fun wf => (t, fst wf, snd wf)) ws).
Proof. induction ws; simpl; constructor; auto. Qed.

Lemma params_selected (t t' : string) (ws : list (string * Z)) :
  matches t' t = true ->
  map pair_of
      (filter (fun p : string * string * Z => matches t' (fst (fst p)))
              (map (fun wf => (t, fst wf, snd wf)) ws))
  = ws.
Proof.
  intros Hm. induction ws as [| [w f] ws IH]; simpl; [reflexivity |].
  rewrite Hm. simpl. unfold pair_of at 1. simpl. now rewrite IH.
Qed.

(** Without a fault and with frequencies SQLite can hold, a save returns
    and leaves the table with the new rows appended and committed. *)
Lemma save_book_data_returns (c : conn) (t : string)
    (ws : list (string * Z)) :
  Forall (fun p => fits_int64 (snd p) = true) ws ->
  let tb := fold_left insert_row (map (fun wf => (t, fst wf, snd wf)) ws)
                      (view c) in
  save_book_data NoFault t ws c
  = Returned tt {| view := tb; durable := tb |}.
Proof.
  intros Hfit tb.
  unfold save_book_data, except_sqlite3, bind, executemany_insert, commit.
  rewrite (insert_all_no_fault 0 (view c) _ (params_fit t ws Hfit)).
  reflexivity.
Qed.

Lemma select_words_absent (t : string) (tb : table) :
  title_absent t tb -> select_words t tb = [].
Proof.
  unfold title_absent, select_words. intros H.
  induction H as [| r l Hr Hl IH]; simpl; [reflexivity |].
  unfold matches at 1. destruct (String.eqb_spec (sqlite_lower (title r)) (sqlite_lower t));
    [contradiction | exact IH].
Qed.

Lemma matches_casing_variant (t t' : string) :
  casing_variant t t' = true -> matches t' t = true.
Proof.
  intros H. unfold matches, sqlite_lower.
  rewrite (ascii_lower_casing_variant t t' H). apply String.eqb_refl.
Qed.

Lemma select_words_casing_variant (t t' : string) (tb : table) :
  casing_variant t t' = true -> select_words t' tb = select_words t tb.
Proof.
  intros H. unfold select_words. f_equal. apply filter_ext. intros r.
  unfold matches, sqlite_lower. now rewrite (ascii_lower_casing_variant t t' H).
Qed.

(** *** Save, then fetch *)




(** C10. A fetch returns the matching pairs in the order of the table, the
    order of insertion: right after [save_book_data t ws], a fetch of [t]
    returns what it returned before the save followed by the saved pairs in
    the order of the saved list; with no matching row before the save, it
    returns the saved list itself. *)
Theorem save_then_fetch_same_order (c : conn) (t : string)
    (ws : list (string * Z)) :
  Forall (fun p => fits_int64 (snd p) = true) ws ->
  exists c' before,
    fetch_book_data NoFault t c = Returned before c
    /\ save_book_data NoFault t ws c = Returned tt c'
    /\ fetch_book_data NoFault t c' = Returned (before ++ ws)%list c'
    /\ (title_absent t (view c) ->
        fetch_book_data NoFault t c' = Returned ws c').
Proof.
  intros Hfit.
  eexists. exists (select_words t (view c)).
  split; [reflexivity |].
  split; [apply (save_book_data_returns c t ws Hfit) |].
  assert (Hm : matches t t = true) by apply String.eqb_refl.
  unfold fetch_book_data, except_sqlite3, execute_select. simpl.
  rewrite select_words_insert_rows, (params_selected t t ws Hm).
  split; [reflexivity |].
  intros Habs. now rewrite (select_words_absent t _ Habs).
Qed.

Lemma save_then_fetch_same_order_witness :
  let c := conn_of (save_book_data NoFault "EMMA" [("woodhouse", 2)] fresh) in
  exists c' before,
    fetch_book_data NoFault "Emma" c = Returned before c
    /\ save_book_data NoFault "Emma" [("emma", 9); ("mr", 9); ("miss", 4)] c
       = Returned tt c'
    /\ fetch_book_data NoFault "Emma" c'
       = Returned (before ++ [("emma", 9); ("mr", 9); ("miss", 4)])%list c'
    /\ (title_absent "Emma" (view c) ->
        fetch_book_data NoFault "Emma" c'
        = Returned [("emma", 9); ("mr", 9); ("miss", 4)] c').
Proof.
  intros c.
  apply (save_then_fetch_same_order c "Emma"
           [("emma", 9); ("mr", 9); ("miss", 4)]).
  repeat constructor.
Defined.

(** *** Delete, then fetch *)

Lemma delete_book_data_returns (c : conn) (t : string) :
  let tb := {| rows := filter (fun r => negb (String.eqb (title r) t))
                              (rows (view c));
               sequence := sequence (view c) |} in
  delete_book_data NoFault t c = Returned tt {| view := tb; durable := tb |}.
Proof. reflexivity. Qed.

(** What a fetch finds after a delete of the same title: the rows stored
    under another casing of it. *)
Lemma select_words_after_delete (t : string) (tb : table) :
  select_words t
    {| rows := filter (fun r => negb (String.eqb (title r) t)) (rows tb);
       sequence := sequence tb |}
  = map (fun r => (word r, frequency r))
        (filter (fun r => matches t (title r) && negb (String.eqb (title r) t))
                (rows tb)).
Proof. unfold select_words. simpl. now rewrite filter_twice. Qed.

(** C4 as stated does not hold for every title: the delete matches the
    title exactly and the fetch matches it up to case.  From the empty
    store, save one word under the title Moby Dick, delete the title
    written in small letters, fetch it: the delete removes nothing and the
    fetch returns the saved pair. *)
Lemma delete_then_fetch_not_empty :
  exists c c',
    save_book_data NoFault "Moby Dick" [("whale", 5)] fresh = Returned tt c
    /\ delete_book_data NoFault "moby dick" c = Returned tt c'
    /\ fetch_book_data NoFault "moby dick" c' = Returned [("whale", 5)] c'
    /\ fetch_book_data NoFault "moby dick" c' <> Returned [] c'.
Proof.
  do 2 eexists. split; [reflexivity |]. split; [reflexivity |].
  split; [reflexivity |]. discriminate.
Qed.

(** C4, amended. When every stored title that matches [t] up to case is
    [t] itself, [delete_book_data t] followed by [fetch_book_data t]
    returns the empty list. *)
Theorem delete_then_fetch_empty (c : conn) (t : string) :
  Forall (fun r => matches t (title r) = true -> title r = t)
         (rows (view c)) ->
  exists c',
    delete_book_data NoFault t c = Returned tt c'
    /\ fetch_book_data NoFault t c' = Returned [] c'.
Proof.
  intros H. eexists. split; [apply delete_book_data_returns |].
  unfold fetch_book_data, except_sqlite3, execute_select. simpl.
  f_equal. rewrite select_words_after_delete.
  induction H as [| r l Hr Hl IH]; simpl; [reflexivity |].
  destruct (matches t (title r)) eqn:E; simpl; [| exact IH].
  rewrite (Hr eq_refl), String.eqb_refl. simpl. exact IH.
Qed.

Lemma delete_then_fetch_empty_witness :
  let c := conn_of (save_book_data NoFault "Moby Dick" [("whale", 5)] fresh) in
  Forall (fun r => matches "Moby Dick" (title r) = true ->
                   title r = "Moby Dick")
         (rows (view c))
  /\ exists c',
       delete_book_data NoFault "Moby Dick" c = Returned tt c'
       /\ fetch_book_data NoFault "Moby Dick" c' = Returned [] c'.
Proof.
  intros c.
  assert (H : Forall (fun r => matches "Moby Dick" (title r) = true ->
                               title r = "Moby Dick")
                     (rows (view c))).
  { simpl. constructor; [intros _; reflexivity | constructor]. }
  split; [exact H |].
  exact (delete_then_fetch_empty c "Moby Dick" H).
Defined.

(** *** A save that fails *)

(** C5. A save is to be all or nothing.  When the second of two inserts
    fails, [save_book_data] raises [RuntimeError] without rolling back:
    the first row stays in the open transaction, a fetch through the
    connection returns it, and the commit of the next operation, here a
    delete of another title, makes it durable.  A frequency that does not
    fit 64 bits stops the save in the same way, with an [OverflowError]
    that the handler does not catch. *)
Theorem save_book_data_leaves_partial_rows :
  let partial := [{| id := 1; title := "T"; word := "a"; frequency := 1 |}] in
  let c1 := {| view := {| rows := partial; sequence := 1 |};
               durable := empty_table |} in
  save_book_data (FailAt 1) "T" [("a", 1); ("b", 2)] fresh
  = Raised RuntimeError c1
  /\ save_book_data NoFault "T" [("a", 1); ("b", 2 ^ 63)] fresh
     = Raised OverflowError c1
  /\ fetch_book_data NoFault "T" fresh = Returned [] fresh
  /\ fetch_book_data NoFault "T" c1 = Returned [("a", 1)] c1
  /\ rows (durable (conn_of (delete_book_data NoFault "U" c1))) = partial.
Proof. repeat split. Qed.

(** *** Frames *)

Lemma delete_book_data_view (flt : fault) (c : conn) (t : string) :
  view (conn_of (delete_book_data flt t c)) = view c
  \/ view (conn_of (delete_book_data flt t c))
     = {| rows := filter (fun r => negb (String.eqb (title r) t))
                         (rows (view c));
          sequence := sequence (view c) |}.
Proof.
  unfold delete_book_data, except_sqlite3, bind, execute_delete, commit.
  destruct (fails flt 0); simpl; [now left |].
  destruct (fails flt 1); simpl; now right.
Qed.

Lemma save_book_data_view (flt : fault) (c : conn) (t : string)
    (ws : list (string * Z)) :
  view (conn_of (save_book_data flt t ws c))
  = fst (insert_all flt 0 (view c) (map (fun wf => (t, fst wf, snd wf)) ws)).
Proof.
  unfold save_book_data, except_sqlite3, bind, executemany_insert, commit.
  destruct (insert_all flt 0 (view c) _) as [tb [e |]]; simpl.
  - now destruct e.
  - now destruct (fails flt _).
Qed.



(** *** Titles *)

Lemma find_title_some (t : string) (l : list row) :
  In t (map title l) ->
  exists r, find (fun r => String.eqb (title r) t) l = Some r /\ In r l.
Proof.
  induction l as [| x l IH]; simpl; [tauto |].
  destruct (String.eqb_spec (title x) t) as [E | E].
  - intros _. exists x. split; [reflexivity | now left].
  - intros [H | H]; [contradiction |].
    destruct (IH H) as [r [Hf Hr]]. exists r. split; [assumption | now right].
Qed.

Lemma distinct_titles_by_latest (l : list row) :
  StronglySorted (fun x y => id y < id x) l ->
  StronglySorted (fun a b => latest_in b l < latest_in a l)
                 (distinct (map title l)).
Proof.
  induction 1 as [| x l Hs IH Hx]; simpl; constructor.
  - apply StronglySorted_filter_keep
      with (f := fun y => negb (String.eqb y (title x))) in IH.
    revert IH. apply StronglySorted_change.
    intros a b Ha Hb Hlt. apply filter_In in Ha, Hb.
    destruct Ha as [_ Ha], Hb as [_ Hb].
    unfold latest_in in *. simpl.
    rewrite (String.eqb_sym (title x) a), (String.eqb_sym (title x) b).
    destruct (String.eqb a (title x)), (String.eqb b (title x));
      try discriminate. exact Hlt.
  - rewrite Forall_forall in *. intros t Ht. apply filter_In in Ht.
    destruct Ht as [Hin Hne]. apply -> In_distinct in Hin.
    destruct (find_title_some t l Hin) as [r [Hf Hr]].
    unfold latest_in. simpl.
    rewrite String.eqb_refl, (String.eqb_sym (title x) t).
    destruct (String.eqb t (title x)); [discriminate |].
    rewrite Hf. now apply Hx.
Qed.

(** C8. On a table as [AUTOINCREMENT] keeps it, [fetch_all_titles]
    returns the titles that are present, each once, the one with the most
    recently inserted row first: in descending order of the largest
    rowid of the title. *)
Theorem fetch_all_titles_recent_first (c : conn) :
  table_ok (view c) ->
  exists ts,
    fetch_all_titles NoFault c = Returned ts c
    /\ NoDup ts
    /\ (forall t, In t ts <-> exists r, In r (rows (view c)) /\ title r = t)
    /\ StronglySorted
         (fun a b => latest_id b (view c) < latest_id a (view c)) ts.
Proof.
  intros [Hsorted _]. exists (select_titles (view c)).
  split; [reflexivity |]. unfold select_titles. split; [| split].
  - apply NoDup_distinct.
  - intros t. rewrite In_distinct, in_map_iff. split.
    + intros [r [Ht Hr]]. exists r. split; [now apply in_rev | assumption].
    + intros [r [Hr Ht]]. exists r. split; [assumption | now apply in_rev in Hr].
  - unfold latest_id. apply distinct_titles_by_latest.
    apply (StronglySorted_rev_flip (fun x y => id x < id y)).
    now apply StronglySorted_map_back with (R := Z.lt).
Qed.

Lemma fetch_all_titles_recent_first_witness :
  let c := conn_of (save_book_data NoFault "Emma" [("miss", 4)]
             (conn_of (save_book_data NoFault "Ulysses" [("bloom", 7)]
                (conn_of (save_book_data NoFault "Emma" [("emma", 9)]
                   fresh))))) in
  table_ok (view c)
  /\ fetch_all_titles NoFault c = Returned ["Emma"; "Ulysses"] c
  /\ exists ts,
       fetch_all_titles NoFault c = Returned ts c
       /\ NoDup ts
       /\ (forall t, In t ts
                     <-> exists r, In r (rows (view c)) /\ title r = t)
       /\ StronglySorted
            (fun a b => latest_id b (view c) < latest_id a (view c)) ts.
Proof.
  intros c.
  assert (H : table_ok (view c)).
  { split; simpl; repeat constructor; simpl; lia. }
  split; [exact H |]. split; [reflexivity |].
  exact (fetch_all_titles_recent_first c H).
Defined.

(** *** The table invariant *)

Lemma empty_table_ok : table_ok empty_table.
Proof. split; constructor. Qed.

Lemma insert_row_ok (tb : table) (p : string * string * Z) :
  table_ok tb -> table_ok (insert_row tb p).
Proof.
  intros [Hs Hb]. destruct p as [[t w] f]. split; simpl.
  - rewrite map_app. apply StronglySorted_app_join;
      [assumption | repeat constructor |].
    intros a b Ha [<- | []]. apply in_map_iff in Ha.
    destruct Ha as [r [<- Hr]]. rewrite Forall_forall in Hb.
    specialize (Hb r Hr). simpl. lia.
  - apply Forall_app. split.
    + revert Hb. apply Forall_impl. intros r Hr. lia.
    + repeat constructor. simpl. lia.
Qed.

Lemma insert_all_ok (flt : fault) (params : list (string * string * Z))
    (i : nat) (tb : table) :
  table_ok tb -> table_ok (fst (insert_all flt i tb params)).
Proof.
  revert i tb. induction params as [| p ps IH]; intros i tb H; simpl;
    [assumption |].
  destruct (fits_int64 (snd p)); simpl; [| assumption].
  destruct (fails flt i); simpl; [assumption |].
  apply IH. now apply insert_row_ok.
Qed.

Lemma filter_rows_ok (f : row -> bool) (tb : table) :
  table_ok tb ->
  table_ok {| rows := filter f (rows tb); sequence := sequence tb |}.
Proof.
  intros [Hs Hb]. split; simpl.
  - apply StronglySorted_map_there.
    apply StronglySorted_filter_keep.
    now apply StronglySorted_map_back with (R := Z.lt).
  - rewrite Forall_forall in *. intros r Hr. apply filter_In in Hr.
    now apply Hb.
Qed.

(** Every write, whatever its outcome, leaves the connection with a table
    that satisfies the invariant; so does every state reached from the
    empty store. *)
Lemma save_book_data_ok (flt : fault) (c : conn) (t : string)
    (ws : list (string * Z)) :
  table_ok (view c) -> table_ok (view (conn_of (save_book_data flt t ws c))).
Proof. intros H. rewrite save_book_data_view. now apply insert_all_ok. Qed.

Lemma delete_book_data_ok (flt : fault) (c : conn) (t : string) :
  table_ok (view c) -> table_ok (view (conn_of (delete_book_data flt t c))).
Proof.
  intros H. destruct (delete_book_data_view flt c t) as [-> | ->];
    [assumption | now apply filter_rows_ok].
Qed.

Lemma delete_all_records_ok (flt : fault) (c : conn) :
  table_ok (view c) -> table_ok (view (conn_of (delete_all_records flt c))).
Proof.
  intros H.
  unfold delete_all_records, except_sqlite3, bind, execute_delete, commit.
  destruct (fails flt 0); simpl; [assumption |].
  destruct (fails flt 1); simpl;
    apply (filter_rows_ok (fun r => negb true) _ H).
Qed.

(** After [delete_all_records] no title is listed. *)
Lemma delete_all_records_no_title (c : conn) :
  exists c',
    delete_all_records NoFault c = Returned tt c'
    /\ fetch_all_titles NoFault c' = Returned [] c'.
Proof.
  eexists. split; [reflexivity |].
  unfold fetch_all_titles, except_sqlite3, execute_select, select_titles.
  simpl. f_equal.
  assert (E : filter (fun _ : row => false) (rows (view c)) = []).
  { induction (rows (view c)); simpl; auto. }
  now rewrite E.
Qed.

(** * Further properties *)

(** ** remove_html_tags, continued *)

Lemma lazy_dots_gt_none_stable (s : string) :
  lazy_dots_gt s = None -> lazy_dots_gt (sub_tags 0 s) = None.
Proof.
  induction s as [| c s IH]; simpl; [reflexivity |].
  destruct (Ascii.eqb c ">") eqn:Egt; [discriminate |].
  destruct (dot_matches c) eqn:Edot.
  - intros H. assert (Hs : lazy_dots_gt s = None).
    { destruct (lazy_dots_gt s); [discriminate | reflexivity]. }
    destruct (Ascii.eqb c "<"); [rewrite Hs |]; simpl;
      now rewrite Egt, Edot, (IH Hs).
  - intros _. assert (Hlt : Ascii.eqb c "<" = false).
    { unfold dot_matches in Edot. apply negb_false_iff in Edot.
      apply Ascii.eqb_eq in Edot. now subst. }
    rewrite Hlt. simpl. now rewrite Egt, Edot.
Qed.

Lemma sub_tags_clean (s : string) (k : nat) :
  sub_tags 0 (sub_tags k s) = sub_tags k s.
Proof.
  revert k. induction s as [| c s IH]; intros k; simpl; [reflexivity |].
  destruct k as [| k]; [| apply IH].
  destruct (Ascii.eqb c "<") eqn:Elt.
  - destruct (lazy_dots_gt s) as [n |] eqn:El; [apply IH |].
    simpl. now rewrite Elt, (lazy_dots_gt_none_stable s El), IH.
  - simpl. now rewrite Elt, IH.
Qed.

(** X1. Stripping is idempotent: nothing that [remove_html_tags] returns
    holds a tag it would remove. *)
Theorem remove_html_tags_idempotent (text : string) :
  remove_html_tags (remove_html_tags text) = remove_html_tags text.
Proof. unfold remove_html_tags. apply sub_tags_clean. Qed.

Lemma sub_tags_shrinks (s : string) (k : nat) :
  (String.length (sub_tags k s) <= String.length s)%nat
  /\ (forall c, contains c (sub_tags k s) = true -> contains c s = true).
Proof.
  revert k. induction s as [| d s IH]; intros k; simpl; [split; auto |].
  assert (Hdrop : forall n,
             (String.length (sub_tags n s) <= S (String.length s))%nat
             /\ (forall c, contains c (sub_tags n s) = true ->
                           Ascii.eqb d c || contains c s = true)).
  { intros n. destruct (IH n) as [Hl Hc]. split; [lia |].
    intros c H. rewrite (Hc c H). apply orb_true_r. }
  assert (Hkeep :
             (String.length (String d (sub_tags 0 s)) <= S (String.length s))%nat
             /\ (forall c, contains c (String d (sub_tags 0 s)) = true ->
                           Ascii.eqb d c || contains c s = true)).
  { destruct (IH 0%nat) as [Hl Hc]. split; [simpl; lia |].
    intros c. simpl. intros H. apply orb_true_iff in H.
    destruct H as [H | H]; [now rewrite H | rewrite (Hc c H)].
    apply orb_true_r. }
  destruct k as [| k]; [| apply Hdrop].
  destruct (Ascii.eqb d "<"); [| exact Hkeep].
  destruct (lazy_dots_gt s); [apply Hdrop | exact Hkeep].
Qed.

(** X2. [remove_html_tags] only deletes: its result is no longer than the
    text, and every character of the result occurs in the text. *)
Theorem remove_html_tags_only_deletes (text : string) :
  (String.length (remove_html_tags text) <= String.length text)%nat
  /\ (forall c, contains c (remove_html_tags text) = true ->
                contains c text = true).
Proof. unfold remove_html_tags. apply sub_tags_shrinks. Qed.

Lemma lazy_dots_gt_no_gt (s : string) :
  contains ">" s = false -> lazy_dots_gt s = None.
Proof.
  induction s as [| c s IH]; simpl; intros H; [reflexivity |].
  apply orb_false_elim in H. destruct H as [Hc H].
  rewrite Hc, (IH H). now destruct (dot_matches c).
Qed.

Lemma sub_tags_no_gt (s : string) :
  contains ">" s = false -> sub_tags 0 s = s.
Proof.
  induction s as [| c s IH]; simpl; intros H; [reflexivity |].
  apply orb_false_elim in H. destruct H as [Hc H].
  rewrite (lazy_dots_gt_no_gt s H), (IH H). now destruct (Ascii.eqb c "<").
Qed.

(** X3. A text that lacks an opening bracket, or lacks a closing bracket,
    comes back unchanged: unbalanced brackets are kept and nothing else,
    entities included, is touched. *)
Theorem remove_html_tags_without_bracket (text : string) :
  contains "<" text = false \/ contains ">" text = false ->
  remove_html_tags text = text.
Proof.
  intros [H | H]; [now apply remove_html_tags_plain |].
  unfold remove_html_tags. now apply sub_tags_no_gt.
Qed.

Lemma remove_html_tags_without_bracket_witness :
  (contains "<" "1 > 0 &amp; x" = false
   \/ contains ">" "1 > 0 &amp; x" = false)
  /\ remove_html_tags "1 > 0 &amp; x" = "1 > 0 &amp; x".
Proof.
  assert (H : contains "<" "1 > 0 &amp; x" = false
              \/ contains ">" "1 > 0 &amp; x" = false)
    by (left; reflexivity).
  split; [exact H |].
  exact (remove_html_tags_without_bracket "1 > 0 &amp; x" H).
Defined.

Lemma sub_tags_prefix (pre s : string) :
  contains "<" pre = false -> sub_tags 0 (pre ++ s) = pre ++ sub_tags 0 s.
Proof.
  induction pre as [| c pre IH]; simpl; intros H; [reflexivity |].
  apply orb_false_elim in H. destruct H as [Hc H].
  now rewrite Hc, (IH H).
Qed.

(** X4. The first tag of a text: when the text before it has no [<] and
    its body has neither [>] nor a line break, the tag is deleted, the text
    before it is kept, and the text after it is stripped in turn. *)
Theorem remove_html_tags_first_tag (pre body rest : string) :
  contains "<" pre = false ->
  contains ">" body = false -> contains newline body = false ->
  remove_html_tags (pre ++ String "<" (body ++ String ">" rest))
  = pre ++ remove_html_tags rest.
Proof.
  intros Hpre Hgt Hnl. unfold remove_html_tags.
  rewrite (sub_tags_prefix pre _ Hpre). f_equal.
  apply (remove_html_tags_tag body rest Hgt Hnl).
Qed.

Lemma remove_html_tags_first_tag_witness :
  remove_html_tags ("Call me " ++ String "<" ("i class=x" ++ String ">" "Ishmael</i>."))
  = "Call me " ++ remove_html_tags "Ishmael</i>.".
Proof.
  apply (remove_html_tags_first_tag "Call me " "i class=x" "Ishmael</i>.");
    reflexivity.
Defined.

(** ** The ranking, continued *)

Lemma insert_desc_perm (x : string * Z) (l : list (string * Z)) :
  Permutation (insert_desc x l) (x :: l).
Proof.
  induction l as [| y l IH]; simpl; [reflexivity |].
  destruct (snd y <=? snd x); [reflexivity |].
  rewrite IH. apply perm_swap.
Qed.

Lemma sorted_desc_perm (l : list (string * Z)) :
  Permutation (sorted_desc l) l.
Proof.
  induction l as [| x l IH]; simpl; [reflexivity |].
  rewrite insert_desc_perm. now apply perm_skip.
Qed.

Lemma NoDup_firstn_keep {A : Type} (n : nat) (l : list A) :
  NoDup l -> NoDup (firstn n l).
Proof.
  intros H. revert n. induction H as [| x l Hx Hl IH]; intros [| n]; simpl;
    try constructor.
  - intros Hin. apply Hx. revert Hin. apply In_firstn_keep.
  - apply IH.
Qed.

Lemma Counter_has (words : list string) (w : string) :
  In w words -> In (w, occurrences w words) (Counter words).
Proof.
  intros H. apply In_distinct in H. rewrite <- keys_Counter in H.
  apply in_map_iff in H. destruct H as [[w' n] [Hw Hp]]. simpl in Hw. subst w'.
  destruct (Counter_items words (w, n) Hp) as [Hn _]. simpl in Hn.
  now rewrite <- Hn.
Qed.

Section Ranking.

Variable str_lower : string -> string.
Variable str_split : string -> list string.
Variable stop : list string.
Variable limit : nat.
Variable text : string.

Lemma rank_words_unfold :
  rank_words str_lower str_split stop limit text
  = most_common limit
      (Counter (filtered_words str_lower str_split stop text)).
Proof.
  unfold rank_words.
  destruct (filtered_words str_lower str_split stop text); [| reflexivity].
  unfold most_common. now destruct limit.
Qed.

(** X5. No word is ranked twice. *)
Theorem rank_words_distinct_words :
  NoDup (map fst (rank_words str_lower str_split stop limit text)).
Proof.
  rewrite rank_words_unfold.
  generalize (filtered_words str_lower str_split stop text) as words.
  intros words. unfold most_common.
  rewrite <- firstn_map. apply NoDup_firstn_keep.
  apply (Permutation_NoDup
           (Permutation_sym
              (Permutation_map fst (sorted_desc_perm (Counter words))))).
  rewrite keys_Counter. apply NoDup_distinct.
Qed.

(** X6. The ranking has as many entries as there are distinct words in the
    filtered token stream, up to the limit. *)
Theorem rank_words_length :
  List.length (rank_words str_lower str_split stop limit text)
  = Nat.min limit
      (List.length
         (distinct (filtered_words str_lower str_split stop text))).
Proof.
  rewrite rank_words_unfold. unfold most_common.
  rewrite length_firstn, (Permutation_length (sorted_desc_perm _)).
  now rewrite <- keys_Counter, length_map.
Qed.

(** X7. The limit cuts off the least frequent words: a word of the
    filtered token stream that is not ranked stands, in the order of the
    ranking, after every word that is; its count is at most theirs. *)
Theorem rank_words_keeps_most_frequent (w : string) (p : string * Z) :
  In w (filtered_words str_lower str_split stop text) ->
  ~ In w (map fst (rank_words str_lower str_split stop limit text)) ->
  In p (rank_words str_lower str_split stop limit text) ->
  ranks_before (filtered_words str_lower str_split stop text) p
    (w, occurrences w (filtered_words str_lower str_split stop text))
  /\ occurrences w (filtered_words str_lower str_split stop text) <= snd p.
Proof.
  rewrite rank_words_unfold.
  generalize (filtered_words str_lower str_split stop text) as words.
  intros words Hw Hout Hp.
  assert (Hcut : In (w, occurrences w words)
                    (skipn limit (sorted_desc (Counter words)))).
  { pose proof (Counter_has words w Hw) as Hc.
    apply In_sorted_desc in Hc.
    rewrite <- (firstn_skipn limit (sorted_desc (Counter words))) in Hc.
    apply in_app_or in Hc. destruct Hc as [Hc | Hc]; [| exact Hc].
    exfalso. apply Hout. unfold most_common.
    change w with (fst (w, occurrences w words)). now apply in_map. }
  pose proof (most_common_cut limit words p _ Hp Hcut) as Hr.
  split; [exact Hr |].
  destruct Hr as [Hr | [Hr _]]; simpl in Hr; lia.
Qed.

(** X8. When the filtered token stream has no more distinct words than
    the limit, every one of them is ranked, with its number of
    occurrences. *)
Theorem rank_words_complete_below_limit (w : string) :
  (List.length (distinct (filtered_words str_lower str_split stop text))
   <= limit)%nat ->
  In w (filtered_words str_lower str_split stop text) ->
  In (w, occurrences w (filtered_words str_lower str_split stop text))
     (rank_words str_lower str_split stop limit text).
Proof.
  rewrite rank_words_unfold.
  generalize (filtered_words str_lower str_split stop text) as words.
  intros words Hlen Hw. unfold most_common.
  rewrite firstn_all2.
  - apply In_sorted_desc. now apply Counter_has.
  - rewrite (Permutation_length (sorted_desc_perm _)).
    now rewrite <- (length_map fst), keys_Counter.
Qed.

End Ranking.

Lemma rank_words_keeps_most_frequent_witness :
  let text := "b a a c b a" in
  In "c" (filtered_words ascii_lower ascii_split [] text)
  /\ ~ In "c" (map fst (rank_words ascii_lower ascii_split [] 2 text))
  /\ In ("b", 2) (rank_words ascii_lower ascii_split [] 2 text)
  /\ ranks_before (filtered_words ascii_lower ascii_split [] text) ("b", 2)
       ("c", occurrences "c" (filtered_words ascii_lower ascii_split [] text))
  /\ occurrences "c" (filtered_words ascii_lower ascii_split [] text) <= 2.
Proof.
  intros text.
  assert (H1 : In "c" (filtered_words ascii_lower ascii_split [] text)).
  { vm_compute. tauto. }
  assert (H2 : ~ In "c"
                 (map fst (rank_words ascii_lower ascii_split [] 2 text))).
  { vm_compute. intros [H | [H | []]]; discriminate. }
  assert (H3 : In ("b", 2) (rank_words ascii_lower ascii_split [] 2 text)).
  { vm_compute. tauto. }
  split; [exact H1 |]. split; [exact H2 |]. split; [exact H3 |].
  exact (rank_words_keeps_most_frequent ascii_lower ascii_split [] 2 text
           "c" ("b", 2) H1 H2 H3).
Defined.

Lemma rank_words_complete_below_limit_witness :
  let text := "b a a c b a" in
  (List.length (distinct (filtered_words ascii_lower ascii_split [] text))
   <= 10)%nat
  /\ In "c" (filtered_words ascii_lower ascii_split [] text)
  /\ In ("c", occurrences "c" (filtered_words ascii_lower ascii_split [] text))
        (rank_words ascii_lower ascii_split [] 10 text).
Proof.
  intros text.
  assert (H1 : (List.length
                  (distinct (filtered_words ascii_lower ascii_split [] text))
                <= 10)%nat).
  { vm_compute. lia. }
  assert (H2 : In "c" (filtered_words ascii_lower ascii_split [] text)).
  { vm_compute. tauto. }
  split; [exact H1 |]. split; [exact H2 |].
  exact (rank_words_complete_below_limit ascii_lower ascii_split [] 10 text
           "c" H1 H2).
Defined.

(** ** The words of the ranking on ASCII text *)

Lemma contains_append (c : ascii) (s1 s2 : string) :
  contains c (s1 ++ s2) = contains c s1 || contains c s2.
Proof.
  induction s1 as [| d s1 IH]; simpl; [reflexivity |].
  now rewrite IH, orb_assoc.
Qed.

Lemma split_from_tokens (s cur t : string) :
  In t (split_from cur s) ->
  t <> EmptyString
  /\ (forall c, contains c t = true ->
                contains c cur = true
                \/ (contains c s = true /\ is_space c = false)).
Proof.
  revert cur. induction s as [| d r IH]; intros cur; simpl.
  - destruct cur as [| a cur]; simpl; [tauto |].
    intros [<- | []]. split; [discriminate | auto].
  - destruct (is_space d) eqn:Ed.
    + intros H. apply in_app_or in H. destruct H as [H | H].
      * destruct cur as [| a cur]; simpl in H; [tauto |].
        destruct H as [<- | []]. split; [discriminate | auto].
      * destruct (IH _ H) as [Hne Hc]. split; [exact Hne |].
        intros c Hct. destruct (Hc c Hct) as [Hcur | [Hr Hsp]];
          [discriminate |].
        right. now rewrite Hr, orb_true_r.
    + intros H. destruct (IH _ H) as [Hne Hc]. split; [exact Hne |].
      intros c Hct. destruct (Hc c Hct) as [Hcur | [Hr Hsp]].
      * rewrite contains_append in Hcur. simpl in Hcur.
        rewrite orb_false_r in Hcur. apply orb_true_iff in Hcur.
        destruct Hcur as [Hcur | Hd]; [now left |].
        right. rewrite Hd. split; [reflexivity |].
        apply Ascii.eqb_eq in Hd. now subst.
      * right. now rewrite Hr, orb_true_r.
Qed.

Lemma contains_ascii_lower (c : ascii) (s : string) :
  contains c (ascii_lower s) = true ->
  exists d, contains d s = true /\ c = lower_char d.
Proof.
  induction s as [| a s IH]; simpl; [discriminate |].
  intros H. apply orb_true_iff in H. destruct H as [H | H].
  - apply Ascii.eqb_eq in H. exists a.
    now rewrite Ascii.eqb_refl.
  - destruct (IH H) as [d [Hd Hc]]. exists d. now rewrite Hd, orb_true_r.
Qed.

Lemma contains_translate (c : ascii) (s : string) :
  contains c (translate s) = true ->
  contains c s = true /\ is_punctuation c = false.
Proof.
  induction s as [| a s IH]; simpl; [discriminate |].
  destruct (is_punctuation a) eqn:Ea; simpl.
  - intros H. destruct (IH H) as [H1 H2]. now rewrite H1, orb_true_r.
  - intros H. apply orb_true_iff in H. destruct H as [H | H].
    + rewrite H. apply Ascii.eqb_eq in H. now subst.
    + destruct (IH H) as [H1 H2]. now rewrite H1, orb_true_r.
Qed.

Lemma lower_char_clean (d : ascii) :
  is_punctuation d = false ->
  is_punctuation (lower_char d) = false /\ is_upper (lower_char d) = false.
Proof.
  destruct d as [[] [] [] [] [] [] [] []]; vm_compute;
    intros H; (discriminate H || (split; reflexivity)).
Qed.

(** X9. On ASCII text every ranked word is a proper lower-case token: it
    is not empty and holds no separator, no punctuation character and no
    capital letter. *)
Theorem rank_words_ascii_words (stop : list string) (limit : nat)
    (text : string) (p : string * Z) :
  In p (rank_words ascii_lower ascii_split stop limit text) ->
  fst p <> EmptyString
  /\ (forall c, contains c (fst p) = true ->
                is_space c = false
                /\ is_punctuation c = false
                /\ is_upper c = false).
Proof.
  intros Hp. apply rank_words_items, Counter_items in Hp.
  destruct Hp as [_ Hw]. unfold filtered_words in Hw.
  apply filter_In in Hw. destruct Hw as [Hw _].
  destruct (split_from_tokens _ _ _ Hw) as [Hne Hc].
  split; [exact Hne |]. intros c Hct.
  destruct (Hc c Hct) as [Hcur | [Hin Hsp]]; [discriminate |].
  split; [exact Hsp |].
  destruct (contains_ascii_lower c _ Hin) as [d [Hd ->]].
  apply contains_translate in Hd. now apply lower_char_clean.
Qed.

Lemma rank_words_ascii_words_witness :
  In ("whale", 2)
     (rank_words ascii_lower ascii_split STOP_WORDS 10
        "The Whale; the WHALE!")
  /\ "whale" <> EmptyString
  /\ (forall c, contains c "whale" = true ->
                is_space c = false
                /\ is_punctuation c = false
                /\ is_upper c = false).
Proof.
  assert (H : In ("whale", 2)
                (rank_words ascii_lower ascii_split STOP_WORDS 10
                   "The Whale; the WHALE!")).
  { vm_compute. tauto. }
  split; [exact H |].
  exact (rank_words_ascii_words STOP_WORDS 10 "The Whale; the WHALE!"
           ("whale", 2) H).
Defined.

(** ** The store, continued *)

Lemma filter_none {A : Type} (l : list A) :
  filter (fun _ : A => false) l = [].
Proof. induction l; simpl; auto. Qed.

(** X10. [delete_all_records] empties the store: after it no title is
    listed and a fetch of any title returns nothing. *)
Theorem delete_all_records_empties (c : conn) :
  exists c',
    delete_all_records NoFault c = Returned tt c'
    /\ rows (view c') = []
    /\ fetch_all_titles NoFault c' = Returned [] c'
    /\ (forall t, fetch_book_data NoFault t c' = Returned [] c').
Proof.
  eexists. split; [reflexivity |]. simpl.
  unfold fetch_all_titles, fetch_book_data, except_sqlite3, execute_select,
    select_titles, select_words.
  simpl. rewrite filter_none. repeat split.
Qed.

Lemma write_durable_cases (A : Type) (body : M A) (flt : fault) (i : nat)
    (c : conn) :
  (forall o, body c = o -> durable (conn_of o) = durable c) ->
  match except_sqlite3 (bind body (fun _ => commit flt i)) c with
  | Returned _ c' => durable c' = view c'
  | Raised _ c' => durable c' = durable c
  end.
Proof.
  intros Hbody. unfold except_sqlite3, bind, commit.
  specialize (Hbody (body c) eq_refl).
  destruct (body c) as [v c1 | e c1]; simpl in Hbody.
  - destruct (fails flt i); simpl; [exact Hbody | reflexivity].
  - now destruct e.
Qed.

Lemma writes_durable (flt : fault) (c : conn) (t : string)
    (ws : list (string * Z)) :
  (forall c', save_book_data flt t ws c = Returned tt c' ->
              durable c' = view c')
  /\ (forall e c', save_book_data flt t ws c = Raised e c' ->
                   durable c' = durable c)
  /\ (forall c', delete_book_data flt t c = Returned tt c' ->
                 durable c' = view c')
  /\ (forall e c', delete_book_data flt t c = Raised e c' ->
                   durable c' = durable c)
  /\ (forall c', delete_all_records flt c = Returned tt c' ->
                 durable c' = view c')
  /\ (forall e c', delete_all_records flt c = Raised e c' ->
                   durable c' = durable c).
Proof.
  assert (Hs := write_durable_cases unit
                  (executemany_insert flt
                     (map (fun wf => (t, fst wf, snd wf)) ws))
                  flt (List.length (map (fun wf => (t, fst wf, snd wf)) ws)) c).
  assert (Hd := fun cond =>
                  write_durable_cases unit (execute_delete flt 0 cond) flt 1 c).
  assert (Hins : forall o,
             executemany_insert flt (map (fun wf => (t, fst wf, snd wf)) ws) c
             = o -> durable (conn_of o) = durable c).
  { intros o <-. unfold executemany_insert.
    now destruct (insert_all flt 0 (view c) _) as [tb [e |]]. }
  assert (Hdel : forall cond o,
             execute_delete flt 0 cond c = o ->
             durable (conn_of o) = durable c).
  { intros cond o <-. unfold execute_delete. now destruct (fails flt 0). }
  specialize (Hs Hins).
  pose proof (Hd _ (Hdel (fun r => String.eqb (title r) t))) as Hd1.
  pose proof (Hd _ (Hdel (fun _ => true))) as Hd2.
  unfold save_book_data, delete_book_data, delete_all_records.
  repeat split; intros; 
    match goal with
    | [ E : _ = _ |- _ ] => rewrite E in *; assumption
    end.
Qed.

(** X11. The commit discipline of the three writes: when a write returns,
    everything the connection sees has been committed; when it raises,
    nothing has been committed by it. *)
Theorem writes_commit_or_keep (flt : fault) (c : conn) (t : string)
    (ws : list (string * Z)) :
  (forall c', save_book_data flt t ws c = Returned tt c' ->
              durable c' = view c')
  /\ (forall e c', save_book_data flt t ws c = Raised e c' ->
                   durable c' = durable c)
  /\ (forall c', delete_book_data flt t c = Returned tt c' ->
                 durable c' = view c')
  /\ (forall e c', delete_book_data flt t c = Raised e c' ->
                   durable c' = durable c)
  /\ (forall c', delete_all_records flt c = Returned tt c' ->
                 durable c' = view c')
  /\ (forall e c', delete_all_records flt c = Raised e c' ->
                   durable c' = durable c).
Proof. exact (writes_durable flt c t ws). Qed.

(** X12. Every write keeps the table as [AUTOINCREMENT] has it, whether
    it returns or raises: rowids grow along the table and none exceeds the
    recorded sequence, in the connection's view and in the committed
    table. *)
Theorem writes_keep_table_ok (flt : fault) (c : conn) (t : string)
    (ws : list (string * Z)) :
  table_ok (view c) -> table_ok (durable c) ->
  let c1 := conn_of (save_book_data flt t ws c) in
  let c2 := conn_of (delete_book_data flt t c) in
  let c3 := conn_of (delete_all_records flt c) in
  (table_ok (view c1) /\ table_ok (durable c1))
  /\ (table_ok (view c2) /\ table_ok (durable c2))
  /\ (table_ok (view c3) /\ table_ok (durable c3)).
Proof.
  intros Hv Hd c1 c2 c3.
  assert (Hdur : forall o : outcome unit,
             table_ok (view (conn_of o)) ->
             (forall c', o = Returned tt c' -> durable c' = view c') ->
             (forall e c', o = Raised e c' -> durable c' = durable c) ->
             table_ok (view (conn_of o)) /\ table_ok (durable (conn_of o))).
  { intros [[] c' | e c'] Hview Hret Hraise; simpl in *;
      (split; [exact Hview |]).
    - now rewrite (Hret c' eq_refl).
    - now rewrite (Hraise e c' eq_refl). }
  destruct (writes_durable flt c t ws)
    as [S1 [S2 [D1 [D2 [A1 A2]]]]].
  split; [| split].
  - apply Hdur; [now apply save_book_data_ok | exact S1 | exact S2].
  - apply Hdur; [now apply delete_book_data_ok | exact D1 | exact D2].
  - apply Hdur; [now apply delete_all_records_ok | exact A1 | exact A2].
Qed.

Lemma writes_keep_table_ok_witness :
  let c := conn_of (save_book_data (FailAt 1) "Emma"
                      [("emma", 9); ("mr", 9)] fresh) in
  table_ok (view c) /\ table_ok (durable c)
  /\ table_ok (view (conn_of (save_book_data NoFault "Emma" [("miss", 4)] c)))
  /\ table_ok (view (conn_of (delete_book_data (FailAt 1) "Emma" c))).
Proof.
  intros c.
  assert (Hv : table_ok (view c)).
  { split; simpl; repeat constructor; simpl; lia. }
  assert (Hd : table_ok (durable c)) by apply empty_table_ok.
  split; [exact Hv |]. split; [exact Hd |].
  split.
  - exact (proj1 (proj1 (writes_keep_table_ok NoFault c "Emma"
                           [("miss", 4)] Hv Hd))).
  - exact (proj1 (proj1 (proj2 (writes_keep_table_ok (FailAt 1) c "Emma"
                                  [] Hv Hd)))).
Defined.

(** *** The list of titles *)

Lemma distinct_filter (p : string -> bool) (l : list string) :
  distinct (filter p l) = filter p (distinct l).
Proof.
  induction l as [| x l IH]; simpl; [reflexivity |].
  destruct (p x) eqn:Ex; simpl.
  - rewrite IH, !filter_twice. f_equal. apply filter_ext. intros y.
    apply andb_comm.
  - rewrite IH, filter_twice. apply filter_ext. intros y.
    destruct (String.eqb_spec y x) as [-> | _]; simpl.
    + now rewrite Ex.
    + now rewrite andb_true_r.
Qed.

Lemma distinct_after_title (t : string) (l1 l2 : list string) :
  l1 <> [] -> Forall (fun x => x = t) l1 ->
  distinct (l1 ++ l2)
  = t :: filter (fun y => negb (String.eqb y t)) (distinct l2).
Proof.
  intros Hne Hall. induction Hall as [| x l1 Hx Hl1 IH]; [contradiction |].
  subst x. simpl. f_equal. destruct l1 as [| y l1]; [reflexivity |].
  rewrite IH by discriminate. simpl. rewrite String.eqb_refl. simpl.
  rewrite filter_twice. apply filter_ext. intros z.
  now destruct (String.eqb z t).
Qed.

Lemma titles_insert_rows (params : list (string * string * Z)) (tb : table) :
  map title (rows (fold_left insert_row params tb))
  = (map title (rows tb) ++ map (fun p => fst (fst p)) params)%list.
Proof.
  revert tb. induction params as [| [[t w] f] ps IH]; intros tb; simpl.
  - now rewrite app_nil_r.
  - rewrite IH. simpl. rewrite map_app, <- app_assoc. reflexivity.
Qed.

(** X13. A save of at least one word puts its title at the head of the
    list of titles and leaves the other titles in the order they had. *)
Theorem save_lists_title_first (c : conn) (t : string)
    (ws : list (string * Z)) :
  ws <> [] ->
  Forall (fun p => fits_int64 (snd p) = true) ws ->
  exists c' before,
    fetch_all_titles NoFault c = Returned before c
    /\ save_book_data NoFault t ws c = Returned tt c'
    /\ fetch_all_titles NoFault c'
       = Returned (t :: filter (fun y => negb (String.eqb y t)) before) c'.
Proof.
  intros Hne Hfit. eexists. exists (select_titles (view c)).
  split; [reflexivity |].
  split; [apply (save_book_data_returns c t ws Hfit) |].
  unfold fetch_all_titles, except_sqlite3, execute_select, select_titles.
  simpl. f_equal.
  rewrite !map_rev, titles_insert_rows, rev_app_distr.
  apply distinct_after_title.
  - destruct ws; [contradiction | simpl].
    intros H. apply app_eq_nil in H. destruct H as [_ H]. discriminate.
  - apply Forall_rev. rewrite map_map. simpl.
    rewrite Forall_forall. intros x Hx. apply in_map_iff in Hx.
    now destruct Hx as [p [<- _]].
Qed.

Lemma save_lists_title_first_witness :
  let c := conn_of (save_book_data NoFault "Ulysses" [("bloom", 7)]
             (conn_of (save_book_data NoFault "Emma" [("emma", 9)] fresh))) in
  fetch_all_titles NoFault c = Returned ["Ulysses"; "Emma"] c
  /\ exists c' before,
       fetch_all_titles NoFault c = Returned before c
       /\ save_book_data NoFault "Emma" [("miss", 4)] c = Returned tt c'
       /\ fetch_all_titles NoFault c'
          = Returned
              ("Emma" :: filter (fun y => negb (String.eqb y "Emma")) before)
              c'.
Proof.
  intros c. split; [reflexivity |].
  apply (save_lists_title_first c "Emma" [("miss", 4)]).
  - discriminate.
  - repeat constructor.
Defined.

(** X14. A delete takes its title, and only its title, off the list of
    titles; the order of the others is kept. *)
Theorem delete_unlists_title (c : conn) (t : string) :
  exists c' before,
    fetch_all_titles NoFault c = Returned before c
    /\ delete_book_data NoFault t c = Returned tt c'
    /\ fetch_all_titles NoFault c'
       = Returned (filter (fun y => negb (String.eqb y t)) before) c'.
Proof.
  eexists. exists (select_titles (view c)).
  split; [reflexivity |]. split; [apply delete_book_data_returns |].
  unfold fetch_all_titles, except_sqlite3, execute_select, select_titles.
  simpl. f_equal. rewrite <- distinct_filter. f_equal.
  induction (rows (view c)) as [| r l IH]; simpl; [reflexivity |].
  destruct (String.eqb (title r) t) eqn:E; simpl.
  - rewrite IH, map_app, filter_app. simpl. rewrite E. simpl.
    now rewrite app_nil_r.
  - rewrite !map_app, filter_app, IH. simpl. now rewrite E.
Qed.

(** X15. Deleting is idempotent, and deleting a title that has no row is
    not an error: the delete returns and the table is as it was. *)
Theorem delete_book_data_again (c : conn) (t : string) :
  exists c',
    delete_book_data NoFault t c = Returned tt c'
    /\ delete_book_data NoFault t c' = Returned tt c'
    /\ (Forall (fun r => title r <> t) (rows (view c)) -> view c' = view c).
Proof.
  eexists. split; [apply delete_book_data_returns |]. split.
  - rewrite delete_book_data_returns. simpl. rewrite filter_twice.
    assert (E : filter (fun r => negb (String.eqb (title r) t)
                                 && negb (String.eqb (title r) t))
                       (rows (view c))
                = filter (fun r => negb (String.eqb (title r) t))
                         (rows (view c))).
    { apply filter_ext. intros r. now destruct (String.eqb (title r) t). }
    now rewrite E.
  - intros H. simpl. destruct (view c) as [l s]. simpl in *. f_equal.
    apply filter_all. rewrite Forall_forall in H. intros r Hr.
    specialize (H r Hr). now destruct (String.eqb_spec (title r) t).
Qed.

Lemma delete_book_data_again_witness :
  let c := conn_of (save_book_data NoFault "Emma" [("emma", 9)] fresh) in
  Forall (fun r => title r <> "Ulysses") (rows (view c))
  /\ exists c',
       delete_book_data NoFault "Ulysses" c = Returned tt c'
       /\ delete_book_data NoFault "Ulysses" c' = Returned tt c'
       /\ view c' = view c.
Proof.
  intros c.
  assert (H : Forall (fun r => title r <> "Ulysses") (rows (view c))).
  { constructor; [discriminate | constructor]. }
  split; [exact H |].
  destruct (delete_book_data_again c "Ulysses") as [c' [H1 [H2 H3]]].
  exists c'. split; [exact H1 |]. split; [exact H2 | exact (H3 H)].
Defined.

(** X16. A fetch does not tell apart two titles that differ only in the
    case of ASCII letters: on every store, under every fault, it returns
    the same for both; and a fetch that SQLite answers leaves the
    connection as it was. *)
Theorem fetch_book_data_ignores_case (flt : fault) (c : conn)
    (t t' : string) :
  casing_variant t t' = true ->
  fetch_book_data flt t' c = fetch_book_data flt t c
  /\ conn_of (fetch_book_data NoFault t c) = c.
Proof.
  intros H. split; [| reflexivity].
  unfold fetch_book_data, except_sqlite3, execute_select.
  destruct (fails flt 0); simpl; [reflexivity |].
  now rewrite (select_words_casing_variant t t' _ H).
Qed.

Lemma fetch_book_data_ignores_case_witness :
  let c := conn_of (save_book_data NoFault "Moby Dick" [("whale", 5)] fresh) in
  fetch_book_data NoFault "MOBY dick" c = fetch_book_data NoFault "Moby Dick" c
  /\ conn_of (fetch_book_data NoFault "Moby Dick" c) = c.
Proof.
  intros c.
  apply (fetch_book_data_ignores_case NoFault c "Moby Dick" "MOBY dick").
  reflexivity.
Defined.

(** ** sanitize_input *)

Section Sanitize_facts.

Variable isspace : N -> bool.
Variable isalnum : N -> bool.

Lemma In_lstrip (c : N) (s : codepoints) :
  In c (lstrip isspace s) -> In c s.
Proof.
  induction s as [| d s IH]; simpl; [tauto |].
  destruct (isspace d); [intros H; right; now apply IH | tauto].
Qed.

Lemma In_strip (c : N) (s : codepoints) :
  In c (strip isspace s) -> In c s.
Proof.
  unfold strip. intros H.
  apply in_rev, In_lstrip, in_rev in H. now apply In_lstrip in H.
Qed.

Lemma lstrip_head (s : codepoints) :
  (forall c, hd_error s = Some c -> isspace c = false) ->
  lstrip isspace s = s.
Proof.
  destruct s as [| d s]; simpl; [reflexivity |].
  intros H. now rewrite (H d eq_refl).
Qed.

Lemma sanitize_input_int_nat (text : codepoints) (n : nat) :
  sanitize_input_int isspace isalnum text (Z.of_nat n)
  = sanitize_input isspace isalnum text n.
Proof.
  unfold sanitize_input_int, sanitize_input, slice_to.
  destruct (Z.leb_spec 0 (Z.of_nat n)); [| lia].
  now rewrite Nat2Z.id.
Qed.

Lemma slice_to_firstn (l : codepoints) (stop : Z) :
  exists n, slice_to l stop = firstn n l.
Proof.
  unfold slice_to. destruct (0 <=? stop); eexists; reflexivity.
Qed.

(** X17. Every character of a sanitized title is alphanumeric, an
    underscore, whitespace or a hyphen, and is a character of the input,
    whatever [max_length] is.  With a [max_length] that is not negative
    the title has at most [max_length] characters; a negative one cuts
    that many characters off the end instead. *)
Theorem sanitize_input_allowed (text : codepoints) (max_length : Z) :
  let title := sanitize_input_int isspace isalnum text max_length in
  Forall (fun c => kept isspace isalnum c = true) title
  /\ (forall c, In c title -> In c text)
  /\ (0 <= max_length -> Z.of_nat (List.length title) <= max_length)
  /\ (max_length < 0 ->
      List.length title
      = (List.length (filter (kept isspace isalnum) (strip isspace text))
         - Z.to_nat (- max_length))%nat).
Proof.
  unfold sanitize_input_int.
  destruct (slice_to_firstn
              (filter (kept isspace isalnum) (strip isspace text)) max_length)
    as [n Hn].
  split; [| split; [| split]].
  - rewrite Hn. apply Forall_firstn_keep. rewrite Forall_forall.
    intros c Hc. now apply filter_In in Hc.
  - rewrite Hn. intros c Hc. apply In_firstn_keep, filter_In in Hc.
    destruct Hc as [Hc _]. now apply In_strip in Hc.
  - intros Hpos. unfold slice_to.
    destruct (Z.leb_spec 0 max_length); [| lia].
    pose proof (firstn_le_length (Z.to_nat max_length)
                  (filter (kept isspace isalnum) (strip isspace text))).
    lia.
  - intros Hneg. unfold slice_to.
    destruct (Z.leb_spec 0 max_length); [lia |].
    rewrite length_firstn. lia.
Qed.

(** X18. A text that is already a title comes back unchanged: all its
    characters are allowed, it neither starts nor ends with whitespace, and
    it is no longer than [max_length]. *)
Theorem sanitize_input_keeps_titles (text : codepoints) (max_length : nat) :
  Forall (fun c => kept isspace isalnum c = true) text ->
  (forall c, hd_error text = Some c -> isspace c = false) ->
  (forall c, hd_error (rev text) = Some c -> isspace c = false) ->
  (List.length text <= max_length)%nat ->
  sanitize_input isspace isalnum text max_length = text.
Proof.
  intros Hkept Hhead Hlast Hlen. unfold sanitize_input, strip.
  rewrite (lstrip_head text Hhead), (lstrip_head (rev text) Hlast),
    rev_involutive.
  rewrite filter_all; [now apply firstn_all2 |].
  now apply Forall_forall.
Qed.

End Sanitize_facts.

Lemma sanitize_input_allowed_witness :
  let isspace := fun c => (c =? 32)%N in
  let isalnum := fun c => ((97 <=? c) && (c <=? 122))%N in
  let text := [32; 109; 111; 98; 121; 33; 100]%N in
  0 <= 4
  /\ sanitize_input_int isspace isalnum text 4 = [109; 111; 98; 121]%N
  /\ Z.of_nat (List.length (sanitize_input_int isspace isalnum text 4)) <= 4
  /\ -1 < 0
  /\ sanitize_input_int isspace isalnum text (-1) = [109; 111; 98; 121]%N
  /\ List.length (sanitize_input_int isspace isalnum text (-1))
     = (List.length (filter (kept isspace isalnum) (strip isspace text))
        - Z.to_nat (- -1))%nat.
Proof.
  intros isspace isalnum text.
  assert (Hpos : 0 <= 4) by lia.
  assert (Hneg : -1 < 0) by lia.
  split; [exact Hpos |]. split; [reflexivity |].
  split; [exact (proj1 (proj2 (proj2
                   (sanitize_input_allowed isspace isalnum text 4))) Hpos) |].
  split; [exact Hneg |]. split; [reflexivity |].
  exact (proj2 (proj2 (proj2
           (sanitize_input_allowed isspace isalnum text (-1)))) Hneg).
Defined.

Lemma sanitize_input_keeps_titles_witness :
  let isspace := fun c => (c =? 32)%N in
  let isalnum := fun c => ((97 <=? c) && (c <=? 122))%N in
  sanitize_input isspace isalnum [109; 111; 98; 121; 32; 100]%N 255
  = [109; 111; 98; 121; 32; 100]%N.
Proof.
  intros isspace isalnum.
  apply (sanitize_input_keeps_titles isspace isalnum
           [109; 111; 98; 121; 32; 100]%N 255).
  - repeat constructor.
  - intros c H. inversion H. reflexivity.
  - intros c H. inversion H. reflexivity.
  - simpl. lia.
Defined.

(** ** The handlers *)

Lemma sorted_desc_descending (l : list (string * Z)) :
  StronglySorted (fun a b => snd b <= snd a) (sorted_desc l).
Proof.
  assert (H : StronglySorted (fun _ _ : string * Z => True) l).
  { induction l; constructor; [assumption |].
    rewrite Forall_forall. auto. }
  apply sorted_desc_ranked in H. revert H. apply StronglySorted_change.
  intros a b _ _ [Hlt | [Heq _]]; lia.
Qed.

Lemma sorted_desc_fixed (l : list (string * Z)) :
  StronglySorted (fun a b => snd b <= snd a) l -> sorted_desc l = l.
Proof.
  induction 1 as [| x l Hs IH Hx]; simpl; [reflexivity |].
  rewrite IH. destruct l as [| y l]; simpl; [reflexivity |].
  inversion Hx as [| ? ? Hy _]; subst.
  destruct (Z.leb_spec (snd y) (snd x)); [reflexivity | lia].
Qed.

Lemma results_sorted_most_common (n : nat) (c : counter) :
  (n <= TOP_WORDS_LIMIT)%nat ->
  BookSearchApp.results_sorted (most_common n c) = most_common n c.
Proof.
  intros Hn. unfold BookSearchApp.results_sorted, most_common.
  rewrite sorted_desc_fixed.
  - apply firstn_all2. pose proof (firstn_le_length n (sorted_desc c)). lia.
  - apply StronglySorted_firstn_keep, sorted_desc_descending.
Qed.

Lemma results_sorted_ranking (str_lower : string -> string)
    (str_split : string -> list string) (text : string) :
  BookSearchApp.results_sorted (get_top_ten_words str_lower str_split text)
  = get_top_ten_words str_lower str_split text.
Proof.
  unfold get_top_ten_words. rewrite rank_words_unfold.
  now apply results_sorted_most_common.
Qed.

(** X19. [search_by_title], on a title that is not blank and with the
    store answering: when no row matches the title it reports that the
    book is not found; otherwise it shows at most ten of the pairs stored
    for the title, in descending order of frequency. *)
Theorem search_by_title_shows (str_strip : string -> string) (c : conn)
    (title : string) :
  str_strip title <> EmptyString ->
  (select_words title (view c) = [] ->
   BookSearchApp.search_by_title str_strip NoFault title c
   = Returned BookSearchApp.TextBookNotFound c)
  /\ (select_words title (view c) <> [] ->
      exists top,
        BookSearchApp.search_by_title str_strip NoFault title c
        = Returned (BookSearchApp.Shown top None) c
        /\ (List.length top <= 10)%nat
        /\ StronglySorted (fun a b => snd b <= snd a) top
        /\ (forall p, In p top -> In p (select_words title (view c)))).
Proof.
  intros Hblank. unfold BookSearchApp.search_by_title.
  destruct (str_strip title) as [| a s] eqn:E; [contradiction |].
  unfold BookSearchApp.except_RuntimeError, bind, fetch_book_data,
    except_sqlite3, execute_select, ret. simpl.
  split.
  - now intros ->.
  - intros Hne. destruct (select_words title (view c)) as [| p l] eqn:Es;
      [contradiction |].
    eexists. split; [reflexivity |].
    unfold BookSearchApp.results_sorted. split; [apply firstn_le_length |].
    split.
    + apply StronglySorted_firstn_keep, sorted_desc_descending.
    + intros q Hq. apply In_firstn_keep in Hq.
      apply -> In_sorted_desc in Hq. exact Hq.
Qed.

Lemma search_by_title_shows_witness :
  let c := conn_of (save_book_data NoFault "Emma"
                      [("miss", 4); ("emma", 9)] fresh) in
  let strip := fun s : string => s in
  strip "emma" <> EmptyString
  /\ BookSearchApp.search_by_title strip NoFault "emma" c
     = Returned (BookSearchApp.Shown [("emma", 9); ("miss", 4)] None) c
  /\ (select_words "ulysses" (view c) = [] ->
      BookSearchApp.search_by_title strip NoFault "ulysses" c
      = Returned BookSearchApp.TextBookNotFound c).
Proof.
  intros c strip.
  assert (H : strip "emma" <> EmptyString) by discriminate.
  assert (H' : strip "ulysses" <> EmptyString) by discriminate.
  split; [exact H |]. split; [reflexivity |].
  exact (proj1 (search_by_title_shows strip c "ulysses" H')).
Defined.

Lemma select_words_none (t : string) (tb : table) :
  select_words t tb = [] ->
  Forall (fun r => matches t (title r) = false) (rows tb).
Proof.
  unfold select_words. induction (rows tb) as [| r l IH]; simpl;
    [constructor |].
  destruct (matches t (title r)) eqn:E; simpl; [discriminate |].
  intros H. constructor; [exact E | now apply IH].
Qed.

Lemma matches_refl (t : string) : matches t t = true.
Proof. apply String.eqb_refl. Qed.

Lemma matches_sym (t u : string) : matches t u = matches u t.
Proof. apply String.eqb_sym. Qed.

Lemma matches_trans (t u v : string) :
  matches t u = true -> matches u v = true -> matches t v = true.
Proof.
  unfold matches. intros H1 H2.
  apply String.eqb_eq in H1, H2. apply String.eqb_eq. congruence.
Qed.

Lemma delete_unmatched (t : string) (l : list row) :
  Forall (fun r => matches t (title r) = false) l ->
  filter (fun r => negb (String.eqb (title r) t)) l = l.
Proof.
  intros H. apply filter_all. rewrite Forall_forall in H. intros r Hr.
  specialize (H r Hr). destruct (String.eqb_spec (title r) t) as [E | _];
    [| reflexivity].
  rewrite E, matches_refl in H. discriminate.
Qed.

Lemma insert_all_added (t : string) (flt : fault)
    (params : list (string * string * Z)) (i : nat) (tb : table) :
  Forall (fun p => fst (fst p) = t) params ->
  exists added,
    rows (fst (insert_all flt i tb params)) = (rows tb ++ added)%list
    /\ Forall (fun r => title r = t) added
    /\ (List.length added <= List.length params)%nat.
Proof.
  intros H. revert i tb.
  induction H as [| p ps Hp Hps IH]; intros i tb; simpl.
  - exists []. rewrite app_nil_r. repeat split; auto.
  - destruct (fits_int64 (snd p)); simpl;
      [| exists []; rewrite app_nil_r; repeat split; simpl; auto; lia].
    destruct (fails flt i); simpl;
      [exists []; rewrite app_nil_r; repeat split; simpl; auto; lia |].
    destruct (IH (S i) (insert_row tb p)) as [added [Hrows [Hadded Hlen]]].
    destruct p as [[t0 w] f]. simpl in *.
    eexists. rewrite Hrows, <- app_assoc. simpl. split; [reflexivity |].
    split; [constructor; [exact Hp | exact Hadded] | simpl; lia].
Qed.

Lemma delete_book_data_outcome (flt : fault) (c : conn) (t : string) :
  delete_book_data flt t c
  = Returned tt (conn_of (delete_book_data flt t c))
  \/ delete_book_data flt t c
     = Raised RuntimeError (conn_of (delete_book_data flt t c)).
Proof.
  unfold delete_book_data, except_sqlite3, bind, execute_delete, commit.
  destruct (fails flt 0); simpl; [now right |].
  destruct (fails flt 1); simpl; [now right | now left].
Qed.

Lemma save_book_data_outcome (flt : fault) (c : conn) (t : string)
    (ws : list (string * Z)) :
  let c' := conn_of (save_book_data flt t ws c) in
  save_book_data flt t ws c = Returned tt c'
  \/ save_book_data flt t ws c = Raised RuntimeError c'
  \/ save_book_data flt t ws c = Raised OverflowError c'.
Proof.
  unfold save_book_data, except_sqlite3, bind, executemany_insert, commit.
  destruct (insert_all flt 0 (view c) _) as [tb [e |]]; simpl.
  - destruct e; simpl; auto.
  - destruct (fails flt _); simpl; auto.
Qed.

Lemma populate_history_returns (flt : fault) (c : conn) :
  exists history, BookSearchApp.populate_history flt c = Returned history c.
Proof.
  unfold BookSearchApp.populate_history, fetch_all_titles, except_sqlite3,
    execute_select.
  destruct (fails flt 0); simpl; eexists; reflexivity.
Qed.

Lemma top_ten_length (str_lower : string -> string)
    (str_split : string -> list string) (text : string) :
  (List.length (get_top_ten_words str_lower str_split text) <= 10)%nat.
Proof.
  unfold get_top_ten_words. rewrite rank_words_unfold.
  unfold most_common. apply firstn_le_length.
Qed.

Section Handler_facts.

Variable str_lower : string -> string.
Variable str_split : string -> list string.

Lemma search_by_url_rows (f1 f2 f3 f4 : fault) (title : string)
    (url_ok : bool) (page : option string) (c : conn) :
  let c' := conn_of (BookSearchApp.search_by_url str_lower str_split
                       f1 f2 f3 f4 title url_ok page c) in
  exists added,
    rows (view c') = (rows (view c) ++ added)%list
    /\ Forall (fun r => BookManager.title r = title) added
    /\ (List.length added <= 10)%nat
    /\ (added <> [] -> select_words title (view c) = []).
Proof.
  intros c'. subst c'.
  assert (Hnone : forall c0, rows (view c0) = rows (view c) ->
            exists added,
              rows (view c0) = (rows (view c) ++ added)%list
              /\ Forall (fun r => BookManager.title r = title) added
              /\ (List.length added <= 10)%nat
              /\ (added <> [] -> select_words title (view c) = [])).
  { intros c0 H. exists []. rewrite app_nil_r. repeat split; auto.
    - simpl. lia.
    - contradiction. }
  unfold BookSearchApp.search_by_url.
  destruct title as [| a s] eqn:Et; [now apply Hnone |]. rewrite <- Et in *.
  unfold bind at 1. unfold fetch_book_data, except_sqlite3, execute_select.
  destruct (fails f1 0); simpl; [now apply Hnone |].
  destruct (select_words title (view c)) as [| p l] eqn:Es;
    [| now apply Hnone].
  destruct url_ok; simpl; [| now apply Hnone].
  pose proof (delete_unmatched title _ (select_words_none title _ Es)) as Hdel.
  assert (Hrows1 : rows (view (conn_of (delete_book_data f2 title c)))
                   = rows (view c)).
  { destruct (delete_book_data_view f2 c title) as [-> | ->];
      [reflexivity | exact Hdel]. }
  unfold BookSearchApp.except_RuntimeError, bind.
  destruct (delete_book_data_outcome f2 c title) as [-> | ->];
    [| now apply Hnone].
  set (c1 := conn_of (delete_book_data f2 title c)) in *.
  destruct page as [text |]; simpl; [| now apply Hnone].
  set (top := get_top_ten_words str_lower str_split (remove_html_tags text)).
  assert (Hlen : (List.length top <= 10)%nat) by apply top_ten_length.
  destruct top as [| q top'] eqn:Etop; [now apply Hnone |].
  rewrite <- Etop in *.
  assert (Hadd : exists added,
             rows (view (conn_of (save_book_data f3 title top c1)))
             = (rows (view c) ++ added)%list
             /\ Forall (fun r => BookManager.title r = title) added
             /\ (List.length added <= 10)%nat
             /\ (added <> [] -> @nil (string * Z) = [])).
  { rewrite save_book_data_view.
    destruct (insert_all_added title f3 _ 0 (view c1) (params_titled title top))
      as [added [Hr [Ht Hl]]].
    exists added. rewrite Hr, Hrows1. repeat split; auto.
    rewrite length_map in Hl. lia. }
  destruct (save_book_data_outcome f3 c1 title top) as [-> | [-> | ->]];
    simpl; try exact Hadd.
  destruct (populate_history_returns f4
              (conn_of (save_book_data f3 title top c1))) as [h ->].
  exact Hadd.
Qed.

(** X20. [search_by_url] only adds.  When the store operations run
    without a failure of SQLite, or the connection has nothing pending
    (the view is the committed table), then whatever the inputs and the
    outcome, every row of the table stays where it was, and what follows
    them is at most ten rows of the given title; rows are added only when
    a fetch of the title returned nothing.  (Its call of
    [delete_book_data] comes after that check and so removes nothing.) *)
Theorem search_by_url_only_adds (f1 f2 f3 f4 : fault) (title : string)
    (url_ok : bool) (page : option string) (c : conn) :
  (f1 = NoFault /\ f2 = NoFault /\ f3 = NoFault /\ f4 = NoFault)
  \/ view c = durable c ->
  let c' := conn_of (BookSearchApp.search_by_url str_lower str_split
                       f1 f2 f3 f4 title url_ok page c) in
  exists added,
    rows (view c') = (rows (view c) ++ added)%list
    /\ Forall (fun r => BookManager.title r = title) added
    /\ (List.length added <= 10)%nat
    /\ (added <> [] -> select_words title (view c) = []).
Proof.
  intros _. exact (search_by_url_rows f1 f2 f3 f4 title url_ok page c).
Qed.

End Handler_facts.

Lemma search_by_url_only_adds_witness :
  let c := conn_of (save_book_data NoFault "Emma" [("emma", 9)] fresh) in
  let c' := conn_of (BookSearchApp.search_by_url ascii_lower ascii_split
                       NoFault NoFault NoFault NoFault "Ulysses" true
                       (Some "<p>Bloom ate; Bloom walked.</p>") c) in
  ((NoFault = NoFault /\ NoFault = NoFault
    /\ NoFault = NoFault /\ NoFault = NoFault)
   \/ view c = durable c)
  /\ List.length (rows (view c')) = 4%nat
  /\ exists added,
       rows (view c') = (rows (view c) ++ added)%list
       /\ Forall (fun r => BookManager.title r = "Ulysses") added
       /\ (List.length added <= 10)%nat
       /\ (added <> [] -> select_words "Ulysses" (view c) = []).
Proof.
  intros c c'.
  assert (H : (NoFault = NoFault /\ NoFault = NoFault
               /\ NoFault = NoFault /\ NoFault = NoFault)
              \/ view c = durable c) by (left; repeat split).
  split; [exact H |]. split; [reflexivity |].
  exact (search_by_url_only_adds ascii_lower ascii_split
           NoFault NoFault NoFault NoFault "Ulysses" true
           (Some "<p>Bloom ate; Bloom walked.</p>") c H).
Defined.

Lemma insert_all_none (flt : fault) (params : list (string * string * Z))
    (i : nat) (tb tb' : table) :
  insert_all flt i tb params = (tb', None) ->
  tb' = fold_left insert_row params tb.
Proof.
  revert i tb. induction params as [| p ps IH]; intros i tb; simpl.
  - now intros [= ->].
  - destruct (fits_int64 (snd p)); simpl; [| discriminate].
    destruct (fails flt i); [discriminate |]. apply IH.
Qed.

Lemma save_book_data_returned (flt : fault) (c c' : conn) (t : string)
    (ws : list (string * Z)) :
  save_book_data flt t ws c = Returned tt c' ->
  view c'
  = fold_left insert_row (map (fun wf => (t, fst wf, snd wf)) ws) (view c).
Proof.
  unfold save_book_data, except_sqlite3, bind, executemany_insert, commit.
  destruct (insert_all flt 0 (view c) _) as [tb [e |]] eqn:E; simpl.
  - destruct e; discriminate.
  - destruct (fails flt _); [discriminate |].
    intros [= <-]. simpl. now apply insert_all_none in E.
Qed.

Lemma select_words_rows (t : string) (tb tb' : table) :
  rows tb' = rows tb -> select_words t tb' = select_words t tb.
Proof. unfold select_words. now intros ->. Qed.

Section Handler_flow.

Variable str_lower : string -> string.
Variable str_split : string -> list string.
Variable str_strip : string -> string.

(** X21. What [search_by_url] has shown, [search_by_title] shows again:
    when [search_by_url] ends with the table of top words on the screen,
    a fetch of the title returns exactly these words, in this order, and
    [search_by_title] for the title, unless it is blank, shows the same
    table. *)
Theorem search_by_url_then_title (f1 f2 f3 f4 : fault) (title : string)
    (url_ok : bool) (page : option string) (c c' : conn)
    (top : list (string * Z)) (history : option BookSearchApp.listing) :
  BookSearchApp.search_by_url str_lower str_split f1 f2 f3 f4 title url_ok
    page c
  = Returned (BookSearchApp.Shown top history) c' ->
  str_strip title <> EmptyString ->
  fetch_book_data NoFault title c' = Returned top c'
  /\ BookSearchApp.search_by_title str_strip NoFault title c'
     = Returned (BookSearchApp.Shown top None) c'.
Proof.
  intros Hrun Hblank.
  assert (Hfetch : select_words title (view c') = top
                   /\ top <> []
                   /\ BookSearchApp.results_sorted top = top).
  { revert Hrun. unfold BookSearchApp.search_by_url.
    destruct title as [| a s] eqn:Et; [discriminate |]. rewrite <- Et in *.
    unfold bind at 1. unfold fetch_book_data, except_sqlite3, execute_select.
    destruct (fails f1 0); simpl; [discriminate |].
    destruct (select_words title (view c)) as [| p l] eqn:Es;
      [| discriminate].
    destruct url_ok; simpl; [| discriminate].
    pose proof (delete_unmatched title _ (select_words_none title _ Es))
      as Hdel.
    assert (Hrows1 : rows (view (conn_of (delete_book_data f2 title c)))
                     = rows (view c)).
    { destruct (delete_book_data_view f2 c title) as [-> | ->];
        [reflexivity | exact Hdel]. }
    unfold BookSearchApp.except_RuntimeError, bind.
    destruct (delete_book_data_outcome f2 c title) as [-> | ->];
      [| discriminate].
    set (c1 := conn_of (delete_book_data f2 title c)) in *.
    destruct page as [text |]; simpl; [| discriminate].
    pose proof (results_sorted_ranking str_lower str_split
                  (remove_html_tags text)) as Hsorted.
    set (top0 := get_top_ten_words str_lower str_split
                   (remove_html_tags text)) in *.
    destruct top0 as [| q top'] eqn:Etop; [discriminate |].
    rewrite <- Etop in *.
    destruct (save_book_data_outcome f3 c1 title top0) as [Hs | [Hs | Hs]];
      rewrite Hs; simpl; try discriminate.
    destruct (populate_history_returns f4
                (conn_of (save_book_data f3 title top0 c1))) as [h ->].
    intros [= <- _ <-].
    rewrite (save_book_data_returned _ _ _ _ _ Hs).
    rewrite select_words_insert_rows,
      (params_selected title title top0 (matches_refl title)),
      (select_words_rows title _ _ Hrows1), Es.
    repeat split; auto. rewrite Etop. discriminate. }
  destruct Hfetch as [Hsel [Hne Hsorted]].
  split.
  - unfold fetch_book_data, except_sqlite3, execute_select. simpl.
    now rewrite Hsel.
  - unfold BookSearchApp.search_by_title.
    destruct (str_strip title); [contradiction |].
    unfold BookSearchApp.except_RuntimeError, bind, fetch_book_data,
      except_sqlite3, execute_select, ret. simpl.
    rewrite Hsel. destruct top; [contradiction |]. now rewrite Hsorted.
Qed.

End Handler_flow.

Lemma search_by_url_then_title_witness :
  let strip := fun s : string => s in
  let c' := conn_of (save_book_data NoFault "Moby Dick"
                       [("whale", 2); ("sea", 1)] fresh) in
  BookSearchApp.search_by_url ascii_lower ascii_split
    NoFault NoFault NoFault NoFault "Moby Dick" true
    (Some "<p>The whale, the WHALE!</p> <i>Sea</i>") fresh
  = Returned (BookSearchApp.Shown [("whale", 2); ("sea", 1)]
                (Some (BookSearchApp.Listed ["Moby Dick"]))) c'
  /\ fetch_book_data NoFault "Moby Dick" c'
     = Returned [("whale", 2); ("sea", 1)] c'
  /\ BookSearchApp.search_by_title strip NoFault "Moby Dick" c'
     = Returned (BookSearchApp.Shown [("whale", 2); ("sea", 1)] None) c'.
Proof.
  intros strip c'.
  assert (H : BookSearchApp.search_by_url ascii_lower ascii_split
                NoFault NoFault NoFault NoFault "Moby Dick" true
                (Some "<p>The whale, the WHALE!</p> <i>Sea</i>") fresh
              = Returned (BookSearchApp.Shown [("whale", 2); ("sea", 1)]
                            (Some (BookSearchApp.Listed ["Moby Dick"]))) c').
  { vm_compute. reflexivity. }
  assert (Hb : strip "Moby Dick" <> EmptyString) by discriminate.
  split; [exact H |].
  exact (search_by_url_then_title ascii_lower ascii_split strip
           NoFault NoFault NoFault NoFault "Moby Dick" true _ fresh c'
           _ _ H Hb).
Defined.

(** *** The shape of the store *)

Lemma case_unique_filter (f : row -> bool) (tb tb' : table) :
  rows tb' = filter f (rows tb) ->
  BookSearchApp.case_unique tb -> BookSearchApp.case_unique tb'.
Proof.
  unfold BookSearchApp.case_unique. intros -> H r1 r2 H1 H2.
  apply filter_In in H1, H2. apply H; tauto.
Qed.

Lemma filter_length_twice {A : Type} (p q : A -> bool) (l : list A) :
  (List.length (filter p (filter q l)) <= List.length (filter p l))%nat.
Proof.
  induction l as [| x l IH]; simpl; [lia |].
  destruct (q x); simpl; destruct (p x); simpl; lia.
Qed.

Lemma bounded_filter (f : row -> bool) (tb tb' : table) :
  rows tb' = filter f (rows tb) ->
  BookSearchApp.bounded tb -> BookSearchApp.bounded tb'.
Proof.
  unfold BookSearchApp.bounded, select_words. intros -> H t.
  specialize (H t). rewrite length_map in *.
  pose proof (filter_length_twice (fun r => matches t (title r)) f (rows tb)).
  lia.
Qed.

Lemma filter_nothing {A : Type} (p : A -> bool) (l : list A) :
  (forall x, In x l -> p x = false) -> filter p l = [].
Proof.
  induction l as [| x l IH]; simpl; intros H; [reflexivity |].
  rewrite (H x (or_introl eq_refl)). apply IH. intros y Hy. apply H. now right.
Qed.

Lemma filter_id_rows (l : list row) : l = filter (fun _ => true) l.
Proof. symmetry. now apply filter_all. Qed.

Lemma shape_added (t : string) (tb tb' : table) (added : list row) :
  rows tb' = (rows tb ++ added)%list ->
  Forall (fun r => title r = t) added ->
  (List.length added <= 10)%nat ->
  (added <> [] -> select_words t tb = []) ->
  BookSearchApp.case_unique tb /\ BookSearchApp.bounded tb ->
  BookSearchApp.case_unique tb' /\ BookSearchApp.bounded tb'.
Proof.
  intros Hrows Ht Hlen Hnew [Hu Hb].
  destruct added as [| a added'] eqn:Ea.
  { rewrite app_nil_r in Hrows. split.
    - apply (case_unique_filter (fun _ => true) tb);
        [rewrite Hrows; apply filter_id_rows | exact Hu].
    - apply (bounded_filter (fun _ => true) tb);
        [rewrite Hrows; apply filter_id_rows | exact Hb]. }
  rewrite <- Ea in *.
  assert (Hold : Forall (fun r => matches t (title r) = false) (rows tb)).
  { apply select_words_none, Hnew. rewrite Ea. discriminate. }
  rewrite Forall_forall in Hold, Ht. split.
  - unfold BookSearchApp.case_unique in *. rewrite Hrows.
    intros r1 r2 H1 H2 Hm. apply in_app_or in H1, H2.
    destruct H1 as [H1 | H1], H2 as [H2 | H2].
    + now apply Hu.
    + rewrite (Ht r2 H2), matches_sym, (Hold r1 H1) in Hm. discriminate.
    + rewrite (Ht r1 H1), (Hold r2 H2) in Hm. discriminate.
    + now rewrite (Ht r1 H1), (Ht r2 H2).
  - unfold BookSearchApp.bounded, select_words in *. intros u.
    rewrite Hrows, filter_app, map_app, length_app, !length_map.
    specialize (Hb u). rewrite length_map in Hb.
    destruct (matches u t) eqn:Eut.
    + assert (E : filter (fun r => matches u (title r)) (rows tb) = []).
      { apply filter_nothing. intros r Hr.
        destruct (matches u (title r)) eqn:Er; [| reflexivity].
        rewrite <- (Hold r Hr). symmetry. rewrite matches_sym in Eut.
        apply (matches_trans t u (title r)); assumption. }
      rewrite E. simpl.
      pose proof (filter_length_le (fun r => matches u (title r)) added).
      unfold TOP_WORDS_LIMIT. lia.
    + assert (E : filter (fun r => matches u (title r)) added = []).
      { apply filter_nothing. intros r Hr. now rewrite (Ht r Hr). }
      rewrite E. simpl. lia.
Qed.

Lemma delete_selected_search_rows (f1 f2 : fault)
    (selection : option string) (c : conn) :
  exists f,
    rows (view (conn_of (BookSearchApp.delete_selected_search f1 f2
                           selection c)))
    = filter f (rows (view c)).
Proof.
  unfold BookSearchApp.delete_selected_search.
  destruct selection as [t |];
    [| exists (fun _ => true); apply filter_id_rows].
  unfold BookSearchApp.except_RuntimeError, bind.
  assert (H : exists f,
             rows (view (conn_of (delete_book_data f1 t c)))
             = filter f (rows (view c))).
  { destruct (delete_book_data_view f1 c t) as [-> | ->];
      [exists (fun _ => true); apply filter_id_rows | eexists; reflexivity]. }
  destruct (delete_book_data_outcome f1 c t) as [-> | ->]; simpl;
    [| exact H].
  destruct (populate_history_returns f2 (conn_of (delete_book_data f1 t c)))
    as [h ->].
  exact H.
Qed.

Lemma delete_all_handler_rows (f1 f2 : fault) (confirmed : bool) (c : conn) :
  exists f,
    rows (view (conn_of (BookSearchApp.delete_all_records f1 f2
                           confirmed c)))
    = filter f (rows (view c)).
Proof.
  unfold BookSearchApp.delete_all_records.
  destruct confirmed; [| exists (fun _ => true); apply filter_id_rows].
  unfold BookSearchApp.except_RuntimeError, bind, delete_all_records,
    except_sqlite3, execute_delete, commit.
  destruct (fails f1 0); simpl;
    [exists (fun _ => true); apply filter_id_rows |].
  destruct (fails f1 1); simpl; [eexists; reflexivity |].
  match goal with
  | |- context [BookSearchApp.populate_history f2 ?c0] =>
      destruct (populate_history_returns f2 c0) as [h ->]
  end.
  eexists; reflexivity.
Qed.

Lemma search_by_title_conn (str_strip : string -> string) (flt : fault)
    (title : string) (c : conn) :
  conn_of (BookSearchApp.search_by_title str_strip flt title c) = c.
Proof.
  unfold BookSearchApp.search_by_title.
  destruct (str_strip title); [reflexivity |].
  unfold BookSearchApp.except_RuntimeError, bind, fetch_book_data,
    except_sqlite3, execute_select.
  destruct (fails flt 0); simpl; [reflexivity |].
  now destruct (select_words title (view c)).
Qed.

Section Handler_shape.

Variable str_lower : string -> string.
Variable str_split : string -> list string.
Variable str_strip : string -> string.

(** X22. The handlers keep the store in shape.  If titles are unique up
    to case and no fetch returns more than ten rows, this is still so
    after any of the four handlers, whatever was entered or selected,
    whatever the request produced, and whether the store operations
    succeeded or failed. *)
Theorem handlers_keep_shape (f1 f2 f3 f4 : fault) (title : string)
    (url_ok confirmed : bool) (page : option string)
    (selection : option string) (c : conn) :
  BookSearchApp.case_unique (view c) /\ BookSearchApp.bounded (view c) ->
  let after (o : outcome BookSearchApp.screen) :=
    BookSearchApp.case_unique (view (conn_of o))
    /\ BookSearchApp.bounded (view (conn_of o)) in
  after (BookSearchApp.search_by_url str_lower str_split f1 f2 f3 f4 title
           url_ok page c)
  /\ after (BookSearchApp.search_by_title str_strip f1 title c)
  /\ after (BookSearchApp.delete_selected_search f1 f2 selection c)
  /\ after (BookSearchApp.delete_all_records f1 f2 confirmed c).
Proof.
  intros Hshape after. subst after. simpl. split; [| split; [| split]].
  - destruct (search_by_url_rows str_lower str_split f1 f2 f3 f4 title
                url_ok page c) as [added [Hr [Ht [Hl Hn]]]].
    exact (shape_added title _ _ added Hr Ht Hl Hn Hshape).
  - now rewrite search_by_title_conn.
  - destruct (delete_selected_search_rows f1 f2 selection c) as [f Hf].
    destruct Hshape as [Hu Hb]. split.
    + exact (case_unique_filter f _ _ Hf Hu).
    + exact (bounded_filter f _ _ Hf Hb).
  - destruct (delete_all_handler_rows f1 f2 confirmed c) as [f Hf].
    destruct Hshape as [Hu Hb]. split.
    + exact (case_unique_filter f _ _ Hf Hu).
    + exact (bounded_filter f _ _ Hf Hb).
Qed.

(** X23. Under the same uniqueness of titles, deleting a title picked
    from the list of titles removes the book for good: the delete
    succeeds, the refreshed list does not hold the title, and
    [search_by_title] for it reports that the book is not found. *)
Theorem delete_selected_then_title (c : conn) (t : string) :
  BookSearchApp.case_unique (view c) ->
  In t (select_titles (view c)) ->
  str_strip t <> EmptyString ->
  exists titles c',
    BookSearchApp.delete_selected_search NoFault NoFault (Some t) c
    = Returned (BookSearchApp.Refreshed (BookSearchApp.Listed titles)) c'
    /\ ~ In t titles
    /\ BookSearchApp.search_by_title str_strip NoFault t c'
       = Returned BookSearchApp.TextBookNotFound c'.
Proof.
  intros Hu Hin Hblank. do 2 eexists. split; [reflexivity |]. split.
  - unfold select_titles. simpl. rewrite In_distinct, in_map_iff.
    intros [r [Hr Hrin]]. apply in_rev, filter_In in Hrin.
    destruct Hrin as [_ Hne]. rewrite Hr, String.eqb_refl in Hne.
    discriminate.
  - unfold BookSearchApp.search_by_title.
    destruct (str_strip t); [contradiction |].
    unfold BookSearchApp.except_RuntimeError, bind, fetch_book_data,
      except_sqlite3, execute_select, ret. simpl.
    rewrite select_words_after_delete.
    unfold select_titles in Hin. apply -> In_distinct in Hin.
    apply in_map_iff in Hin. destruct Hin as [r0 [Hr0 Hin0]].
    apply in_rev in Hin0.
    rewrite filter_nothing; [reflexivity |].
    intros r Hr. destruct (matches t (title r)) eqn:Em; [| reflexivity].
    simpl. apply negb_false_iff, String.eqb_eq.
    rewrite <- Hr0. apply Hu; [assumption | assumption |].
    rewrite Hr0, matches_sym. exact Em.
Qed.

End Handler_shape.

Lemma handlers_keep_shape_witness :
  let c := conn_of (save_book_data NoFault "Emma" [("emma", 9)] fresh) in
  let c' := conn_of (BookSearchApp.search_by_url ascii_lower ascii_split
                       NoFault NoFault (FailAt 1) NoFault "Ulysses" true
                       (Some "<p>Bloom ate; Bloom walked.</p>") c) in
  (BookSearchApp.case_unique (view c) /\ BookSearchApp.bounded (view c))
  /\ List.length (rows (view c')) = 2%nat
  /\ BookSearchApp.case_unique (view c')
  /\ BookSearchApp.bounded (view c').
Proof.
  intros c c'.
  assert (H : BookSearchApp.case_unique (view c)
              /\ BookSearchApp.bounded (view c)).
  { split.
    - intros r1 r2 [<- | []] [<- | []] _. reflexivity.
    - intros t. unfold select_words. simpl.
      destruct (matches t "Emma"); simpl; unfold TOP_WORDS_LIMIT; lia. }
  split; [exact H |]. split; [reflexivity |].
  exact (proj1 (handlers_keep_shape ascii_lower ascii_split (fun s => s)
                  NoFault NoFault (FailAt 1) NoFault "Ulysses" true true
                  (Some "<p>Bloom ate; Bloom walked.</p>") None c H)).
Defined.

Lemma delete_selected_then_title_witness :
  let strip := fun s : string => s in
  let c := conn_of (save_book_data NoFault "Ulysses" [("bloom", 7)]
             (conn_of (save_book_data NoFault "Emma" [("emma", 9)] fresh))) in
  BookSearchApp.case_unique (view c)
  /\ In "Emma" (select_titles (view c))
  /\ exists titles c',
       BookSearchApp.delete_selected_search NoFault NoFault (Some "Emma") c
       = Returned (BookSearchApp.Refreshed (BookSearchApp.Listed titles)) c'
       /\ ~ In "Emma" titles
       /\ BookSearchApp.search_by_title strip NoFault "Emma" c'
          = Returned BookSearchApp.TextBookNotFound c'.
Proof.
  intros strip c.
  assert (Hu : BookSearchApp.case_unique (view c)).
  { intros r1 r2 [<- | [<- | []]] [<- | [<- | []]] Hm;
      try reflexivity; discriminate Hm. }
  assert (Hin : In "Emma" (select_titles (view c))) by (right; now left).
  assert (Hb : strip "Emma" <> EmptyString) by discriminate.
  split; [exact Hu |]. split; [exact Hin |].
  exact (delete_selected_then_title strip c "Emma" Hu Hin Hb).
Defined.

(** X24. A title that a fetch already finds, in whatever casing it is
    stored, is not added again: [search_by_url] stops at the check, with
    the notice that the title exists, before any request is made and
    without touching the store. *)
Theorem search_by_url_refuses_stored_title
    (str_lower : string -> string) (str_split : string -> list string)
    (f2 f3 f4 : fault) (stored title : string) (url_ok : bool)
    (page : option string) (c : conn) :
  title <> EmptyString ->
  casing_variant stored title = true ->
  In stored (select_titles (view c)) ->
  BookSearchApp.search_by_url str_lower str_split NoFault f2 f3 f4 title
    url_ok page c
  = Returned BookSearchApp.InfoTitleExists c.
Proof.
  intros Hne Hvar Hin. unfold BookSearchApp.search_by_url.
  destruct title as [| a s] eqn:Et; [contradiction |]. rewrite <- Et in *.
  unfold bind, fetch_book_data, except_sqlite3, execute_select. simpl.
  unfold select_titles in Hin. apply -> In_distinct in Hin.
  apply in_map_iff in Hin. destruct Hin as [r [Hr Hin]]. apply in_rev in Hin.
  destruct (select_words title (view c)) as [| p l] eqn:Es; [| reflexivity].
  apply select_words_none in Es. rewrite Forall_forall in Es.
  specialize (Es r Hin).
  rewrite Hr, (matches_casing_variant stored title Hvar) in Es.
  discriminate.
Qed.

Lemma search_by_url_refuses_stored_title_witness :
  let c := conn_of (save_book_data NoFault "Moby Dick" [("whale", 5)] fresh) in
  BookSearchApp.search_by_url ascii_lower ascii_split
    NoFault NoFault NoFault NoFault "MOBY DICK" true (Some "whale") c
  = Returned BookSearchApp.InfoTitleExists c.
Proof.
  intros c.
  apply (search_by_url_refuses_stored_title ascii_lower ascii_split
           NoFault NoFault NoFault "Moby Dick" "MOBY DICK" true
           (Some "whale") c).
  - discriminate.
  - reflexivity.
  - now left.
Defined.
